(** * telegram-bot-api: request building, media-group rewriting and
    update projections

    A shallow embedding of the parts of the Go package [tgbotapi] that build
    request parameters and file parts (configs), rewrite media groups
    ([prepareInputMedia*]) and project an inbound [Update] onto its sender
    and chat ([SentFrom], [FromChat]).

    Conventions.
    - A Go pointer or interface value that may be nil is an [option].
    - A Go [int]/[int64] is a [Z]; the functions embedded here do no
      arithmetic on them, they only compare with zero and print in decimal.
    - A Go runtime panic is the [Panics] outcome of the [outcome] type.
    - A Go map from string to string is a [gmap string string]; a slice that
      is only read is the list of its elements; a slice that is written
      lives in a store of backing arrays (module [Heap]). *)

From Stdlib Require Import Ascii.
From stdpp Require Import gmap strings list fin_maps pretty.

Open Scope string_scope.
Open Scope list_scope.

(** ** Outcomes of Go calls *)

(** What a call does: it returns a value, or the goroutine panics. *)
Inductive outcome (A : Type) : Type :=
| Returns (a : A)
| Panics (why : string).
Arguments Returns {A} a.
Arguments Panics {A} why.

Definition obind {A B} (o : outcome A) (k : A -> outcome B) : outcome B :=
  match o with
  | Returns a => k a
  | Panics why => Panics why
  end.

Notation "'let!' x ':=' o 'in' k" := (obind o (fun x => k))
  (at level 10, x name, o at level 100, k at level 200,
   format "'[v' 'let!'  x  ':='  o  'in' '/' k ']'").

Definition returns {A} (o : outcome A) : Prop := exists a, o = Returns a.

(** The message of the runtime error raised by a method call or a field
    selection through nil. *)
Definition nil_dereference : string :=
  "runtime error: invalid memory address or nil pointer dereference".

(** ** File references *)

(** An [io.Reader] is known to this code only by identity. *)
Definition Reader := nat.

(** The implementers of the interface [RequestFileData] that the package
    defines, held by value, as the constructors of the package and its tests
    build them.  A pointer to one of them (whose nil panics in any method)
    and an implementer written by a caller are not values of this type: what
    is proved of file references below is proved of these six. *)
Inductive RequestFileData : Type :=
| FileBytes (Name : string) (Bytes : list Byte.byte)
| FileReader (Name : string) (Reader_ : Reader)
| FilePath (fp : string)
| FileURL (fu : string)
| FileID (fi : string)
| fileAttach (fa : string).

Definition NeedsUpload (d : RequestFileData) : bool :=
  match d with
  | FileBytes _ _ => true
  | FileReader _ _ => true
  | FilePath _ => true
  | FileURL _ => false
  | FileID _ => false
  | fileAttach _ => false
  end.

Definition SendData (d : RequestFileData) : outcome string :=
  match d with
  | FileBytes _ _ => Panics "FileBytes must be uploaded"
  | FileReader _ _ => Panics "FileReader must be uploaded"
  | FilePath _ => Panics "FilePath must be uploaded"
  | FileURL fu => Returns fu
  | FileID fi => Returns fi
  | fileAttach fa => Returns fa
  end.

(** [RequestFile]: a file associated with a field name.  [Data] is an
    interface value, so it may be nil. *)
Module RequestFile.
Record t : Type := mk { Name : string; Data : option RequestFileData }.
End RequestFile.

(** Calling [NeedsUpload] on an interface value that is nil or holds one of
    the six values: nil has no method table. *)
Definition call_NeedsUpload (d : option RequestFileData) : outcome bool :=
  match d with
  | Some f => Returns (NeedsUpload f)
  | None => Panics nil_dereference
  end.

(** ** Response entities (gift.go) *)

Module User.
Record t : Type := mk {
  ID : Z;
  IsBot : bool;
  FirstName : string;
  UserName : string }.
End User.

Module Chat.
Record t : Type := mk {
  ID : Z;
  Type_ : string;
  Title : string }.
End Chat.

Module Message.
Record t : Type := mk {
  MessageID : Z;
  From : option User.t;
  Chat : option Chat.t;
  Text : string }.
End Message.

Module BusinessConnection.
Record t : Type := mk { ID : string; User : option User.t }.
End BusinessConnection.

Module BusinessMessagesDeleted.
Record t : Type := mk {
  BusinessConnectionID : string;
  Chat : option Chat.t;
  MessageIDs : list Z }.
End BusinessMessagesDeleted.

Module MessageReactionUpdated.
Record t : Type := mk {
  Chat : option Chat.t;
  MessageID : Z;
  User : option User.t;
  ActorChat : option Chat.t }.
End MessageReactionUpdated.

Module MessageReactionCountUpdated.
Record t : Type := mk { Chat : option Chat.t; MessageID : Z }.
End MessageReactionCountUpdated.

Module InlineQuery.
Record t : Type := mk { ID : string; From : option User.t; Query : string }.
End InlineQuery.

Module ChosenInlineResult.
Record t : Type := mk {
  ResultID : string;
  From : option User.t;
  Query : string }.
End ChosenInlineResult.

Module CallbackQuery.
Record t : Type := mk {
  ID : string;
  From : option User.t;
  Message : option Message.t;
  InlineMessageID : string;
  ChatInstance : string;
  Data : string;
  GameShortName : string }.
End CallbackQuery.

Module ShippingQuery.
Record t : Type := mk {
  ID : string;
  From : option User.t;
  InvoicePayload : string }.
End ShippingQuery.

Module PreCheckoutQuery.
Record t : Type := mk {
  ID : string;
  From : option User.t;
  Currency : string;
  TotalAmount : Z }.
End PreCheckoutQuery.

Module PaidMediaPurchased.
Record t : Type := mk { From : option User.t; PaidMediaPayload : string }.
End PaidMediaPurchased.

Module Poll.
Record t : Type := mk { ID : string; Question : string }.
End Poll.

Module PollAnswer.
Record t : Type := mk {
  PollID : string;
  VoterChat : option Chat.t;
  User : option User.t;
  OptionIDs : list Z }.
End PollAnswer.

Module ChatMemberUpdated.
Record t : Type := mk {
  Chat : option Chat.t;
  From : option User.t;
  Date : Z }.
End ChatMemberUpdated.

Module ChatJoinRequest.
Record t : Type := mk {
  Chat : option Chat.t;
  From : option User.t;
  UserChatID : Z;
  Date : Z }.
End ChatJoinRequest.

Module ChatBoostUpdated.
Record t : Type := mk { Chat : option Chat.t }.
End ChatBoostUpdated.

Module ChatBoostRemoved.
Record t : Type := mk {
  Chat : option Chat.t;
  BoostID : string;
  RemoveDate : Z }.
End ChatBoostRemoved.

(** [Update]: the inbound event envelope, a flat struct of optional
    sub-payloads. *)
Module Update.
Record t : Type := mk {
  UpdateID : Z;
  Message : option Message.t;
  EditedMessage : option Message.t;
  ChannelPost : option Message.t;
  EditedChannelPost : option Message.t;
  BusinessConnection : option BusinessConnection.t;
  BusinessMessage : option Message.t;
  EditedBusinessMessage : option Message.t;
  DeletedBusinessMessages : option BusinessMessagesDeleted.t;
  MessageReaction : option MessageReactionUpdated.t;
  MessageReactionCount : option MessageReactionCountUpdated.t;
  InlineQuery : option InlineQuery.t;
  ChosenInlineResult : option ChosenInlineResult.t;
  CallbackQuery : option CallbackQuery.t;
  ShippingQuery : option ShippingQuery.t;
  PreCheckoutQuery : option PreCheckoutQuery.t;
  PaidMediaPurchased : option PaidMediaPurchased.t;
  Poll : option Poll.t;
  PollAnswer : option PollAnswer.t;
  MyChatMember : option ChatMemberUpdated.t;
  ChatMember : option ChatMemberUpdated.t;
  ChatJoinRequest : option ChatJoinRequest.t;
  ChatBoost : option ChatBoostUpdated.t;
  RemovedChatBoost : option ChatBoostRemoved.t;
  PurchasedPaidMedia : option PaidMediaPurchased.t }.

(** [func (u *Update) SentFrom() *User]: a switch whose cases are tried
    top to bottom; the first sub-payload that is not nil decides. *)
Definition SentFrom (u : t) : option User.t :=
  match Message u with Some m => Message.From m | None =>
  match EditedMessage u with Some m => Message.From m | None =>
  match ChannelPost u with Some m => Message.From m | None =>
  match EditedChannelPost u with Some m => Message.From m | None =>
  match BusinessConnection u with Some c => BusinessConnection.User c | None =>
  match BusinessMessage u with Some m => Message.From m | None =>
  match EditedBusinessMessage u with Some m => Message.From m | None =>
  match MessageReaction u with Some r => MessageReactionUpdated.User r | None =>
  match InlineQuery u with Some q => InlineQuery.From q | None =>
  match ChosenInlineResult u with Some r => ChosenInlineResult.From r | None =>
  match CallbackQuery u with Some q => CallbackQuery.From q | None =>
  match ShippingQuery u with Some q => ShippingQuery.From q | None =>
  match PreCheckoutQuery u with Some q => PreCheckoutQuery.From q | None =>
  match PollAnswer u with Some a => PollAnswer.User a | None =>
  match ChatMember u with Some c => ChatMemberUpdated.From c | None =>
  match ChatJoinRequest u with Some r => ChatJoinRequest.From r | None =>
  None
  end end end end end end end end end end end end end end end end.

(** [func (u *Update) CallbackData() string]. *)
Definition CallbackData (u : t) : string :=
  match CallbackQuery u with
  | Some q => CallbackQuery.Data q
  | None => EmptyString
  end.

(** [func (u *Update) FromChat() *Chat].  Every case selects a field of
    a sub-payload that was just tested against nil, except the callback
    query case, which selects [.Message.Chat]: [Message] is itself a
    pointer and selecting through it when it is nil panics. *)
Definition FromChat (u : t) : outcome (option Chat.t) :=
  match Message u with Some m => Returns (Message.Chat m) | None =>
  match EditedMessage u with Some m => Returns (Message.Chat m) | None =>
  match ChannelPost u with Some m => Returns (Message.Chat m) | None =>
  match EditedChannelPost u with Some m => Returns (Message.Chat m) | None =>
  match BusinessMessage u with Some m => Returns (Message.Chat m) | None =>
  match EditedBusinessMessage u with Some m => Returns (Message.Chat m) | None =>
  match DeletedBusinessMessages u with
  | Some d => Returns (BusinessMessagesDeleted.Chat d) | None =>
  match MessageReaction u with
  | Some r => Returns (MessageReactionUpdated.Chat r) | None =>
  match MessageReactionCount u with
  | Some r => Returns (MessageReactionCountUpdated.Chat r) | None =>
  match CallbackQuery u with
  | Some q =>
      match CallbackQuery.Message q with
      | Some m => Returns (Message.Chat m)
      | None => Panics nil_dereference
      end
  | None =>
  match MyChatMember u with Some c => Returns (ChatMemberUpdated.Chat c) | None =>
  match ChatMember u with Some c => Returns (ChatMemberUpdated.Chat c) | None =>
  match ChatJoinRequest u with Some r => Returns (ChatJoinRequest.Chat r) | None =>
  match ChatBoost u with Some b => Returns (ChatBoostUpdated.Chat b) | None =>
  match RemovedChatBoost u with Some b => Returns (ChatBoostRemoved.Chat b) | None =>
  Returns None
  end end end end end end end end end end end end end end end.

(** The envelope with no sub-payload populated. *)
Definition empty (id : Z) : t :=
  mk id None None None None None None None None None None None None
     None None None None None None None None None None None None.
End Update.


(** ** Parameter mapping *)

(** [type Params map[string]string]. *)
Abbreviation Params := (gmap string string).

(** The errors a parameter-building step can report. *)
Inductive error : Type :=
| InvalidParameterError (key : string)
| SerializationError (why : string).

(** A candidate handed to [AddFirstValid]: an integer identifier or a string
    fallback. *)
Inductive candidate : Type :=
| CInt (v : Z)
| CStr (s : string).

(** A nested value handed to [AddInterface] is observed by this code only
    through [json.Marshal]: it marshals to a text or marshalling fails.  A
    nil pointer, nil interface or nil slice is the absent value [None] of
    [option jsonable]. *)
Inductive jsonable : Type :=
| Marshals (text : string)
| MarshalFails (why : string).

(** Decimal formatting of an integer, as [strconv.Itoa] and the verb [%d]
    print it. *)
Definition Itoa (v : Z) : string := pretty v.

(** Modelled from the spec: the helper [Params.AddNonZero] is not among the
    sources; [addIfNonZero(key, int)] "inserts key -> decimalString(value)
    only if value <> 0". *)
Definition AddNonZero (key : string) (value : Z) (p : Params) : Params :=
  if decide (value = 0%Z) then p else <[key := Itoa value]> p.

(** Modelled from the spec: the helper [Params.AddNonZero64] is not among
    the sources; it is [addIfNonZero] at the 64-bit integer type. *)
Definition AddNonZero64 (key : string) (value : Z) (p : Params) : Params :=
  if decide (value = 0%Z) then p else <[key := Itoa value]> p.

(** Modelled from the spec: the helper [Params.AddNonEmpty] is not among the
    sources; [addIfNonEmpty(key, string)] "inserts only if string <> empty". *)
Definition AddNonEmpty (key value : string) (p : Params) : Params :=
  if decide (value = EmptyString) then p else <[key := value]> p.

(** Modelled from the spec: the helper [Params.AddBool] is not among the
    sources; [addBool(key, bool)] "always inserts true/false - booleans are
    never omitted, even when false". *)
Definition AddBool (key : string) (value : bool) (p : Params) : Params :=
  <[key := if value then "true" else "false"]> p.

(** The first candidate, in order, that is non-zero or non-empty, printed. *)
Fixpoint first_valid (args : list candidate) : option string :=
  match args with
  | [] => None
  | CInt v :: rest =>
      if decide (v = 0%Z) then first_valid rest else Some (Itoa v)
  | CStr s :: rest =>
      if decide (s = EmptyString) then first_valid rest else Some s
  end.

(** Modelled from the spec: the helper [Params.AddFirstValid] is not among
    the sources; [addFirstValid(key, candidates...)] "scans candidates in
    order and inserts the first one that is non-zero/non-empty; fails with an
    InvalidParameterError if none qualify".  Whether the failure matters is
    up to the call site. *)
Definition AddFirstValid (key : string) (args : list candidate) (p : Params)
  : Params * option error :=
  match first_valid args with
  | Some v => (<[key := v]> p, None)
  | None => (p, Some (InvalidParameterError key))
  end.

(** Modelled from the spec: the helper [Params.AddInterface] is not among
    the sources; [addJSON(key, value)], one of the "add if present" helpers,
    "serializes value to JSON text and inserts it; fails with a
    SerializationError if the value cannot be serialized".  An absent value
    adds nothing. *)
Definition AddInterface (key : string) (value : option jsonable) (p : Params)
  : Params * option error :=
  match value with
  | None => (p, None)
  | Some (Marshals text) => (<[key := text]> p, None)
  | Some (MarshalFails why) => (p, Some (SerializationError why))
  end.

(** ** Request configurations *)

(** [BaseChat] is the base type for all chat config types. *)
Module BaseChat.
Record t : Type := mk {
  ChatID : Z;
  ChannelUsername : string;
  ProtectContent : bool;
  ReplyToMessageID : Z;
  ReplyMarkup : option jsonable;
  DisableNotification : bool;
  AllowSendingWithoutReply : bool;
  BusinessConnectionID : string;
  MessageThreadID : Z }.

(** [func (chat *BaseChat) params() (Params, error)].  The result of
    [AddFirstValid] is dropped by the call statement; the error returned is
    the one of the last step. *)
Definition params (chat : t) : Params * option error :=
  let params : Params := ∅ in
  let params :=
    (AddFirstValid "chat_id"
       [CInt (ChatID chat); CStr (ChannelUsername chat)] params).1 in
  let params := AddNonZero "reply_to_message_id" (ReplyToMessageID chat) params in
  let params := AddBool "disable_notification" (DisableNotification chat) params in
  let params :=
    AddBool "allow_sending_without_reply" (AllowSendingWithoutReply chat) params in
  let params := AddBool "protect_content" (ProtectContent chat) params in
  let params :=
    AddNonEmpty "business_connection_id" (BusinessConnectionID chat) params in
  let params := AddNonZero64 "message_thread_id" (MessageThreadID chat) params in
  let '(params, err) := AddInterface "reply_markup" (ReplyMarkup chat) params in
  (params, err).
End BaseChat.

(** [BaseFile] is a base type for all file config types. *)
Module BaseFile.
Record t : Type := mk {
  BaseChat : BaseChat.t;
  File : option RequestFileData }.

Definition params (file : t) : Params * option error :=
  BaseChat.params (BaseChat file).
End BaseFile.

(** [MessageConfig] contains information about a SendMessage request. *)
Module MessageConfig.
Record t : Type := mk {
  BaseChat : BaseChat.t;
  Text : string;
  ParseMode : string;
  Entities : option jsonable;
  DisableWebPagePreview : bool;
  LinkPreviewOptions : option jsonable;
  AllowPaidBroadcast : bool;
  ReplyParameters : option jsonable;
  MessageEffectID : string }.

Definition params (config : t) : Params * option error :=
  let '(params, err) := BaseChat.params (BaseChat config) in
  match err with
  | Some _ => (params, err)
  | None =>
      let params := AddNonEmpty "text" (Text config) params in
      let params :=
        AddBool "disable_web_page_preview" (DisableWebPagePreview config) params in
      let params := AddNonEmpty "parse_mode" (ParseMode config) params in
      let params :=
        (AddInterface "link_preview_options" (LinkPreviewOptions config) params).1 in
      let params :=
        AddBool "allow_paid_broadcast" (AllowPaidBroadcast config) params in
      let params :=
        (AddInterface "reply_parameters" (ReplyParameters config) params).1 in
      let params := AddNonEmpty "message_effect_id" (MessageEffectID config) params in
      let '(params, err) := AddInterface "entities" (Entities config) params in
      (params, err)
  end.

Definition method (config : t) : string := "sendMessage".
End MessageConfig.

(** [PhotoConfig] contains information about a SendPhoto request. *)
Module PhotoConfig.
Record t : Type := mk {
  BaseFile : BaseFile.t;
  Thumb : option RequestFileData;
  Caption : string;
  ParseMode : string;
  CaptionEntities : option jsonable;
  MessageEffectID : string;
  ShowCaptionAboveMedia : bool;
  HasSpoiler : bool;
  AllowPaidBroadcast : bool;
  ReplyParameters : option jsonable }.

Definition params (config : t) : Params * option error :=
  let '(params, err) := BaseFile.params (BaseFile config) in
  match err with
  | Some _ => (params, err)
  | None =>
      let params := AddNonEmpty "caption" (Caption config) params in
      let params := AddNonEmpty "parse_mode" (ParseMode config) params in
      let '(params, err) :=
        AddInterface "caption_entities" (CaptionEntities config) params in
      let params := AddNonEmpty "message_effect_id" (MessageEffectID config) params in
      let params :=
        AddBool "show_caption_above_media" (ShowCaptionAboveMedia config) params in
      let params := AddBool "has_spoiler" (HasSpoiler config) params in
      let params :=
        AddBool "allow_paid_broadcast" (AllowPaidBroadcast config) params in
      let params :=
        (AddInterface "reply_parameters" (ReplyParameters config) params).1 in
      (params, err)
  end.

Definition method (config : t) : string := "sendPhoto".

(** [func (config PhotoConfig) files() []RequestFile]: the primary file is
    always listed, the thumbnail when the field is not nil. *)
Definition files (config : t) : list RequestFile.t :=
  let files := [RequestFile.mk "photo" (BaseFile.File (BaseFile config))] in
  match Thumb config with
  | Some _ => files ++ [RequestFile.mk "thumb" (Thumb config)]
  | None => files
  end.
End PhotoConfig.


(** ** Input media (gift.go) *)

Module MessageEntity.
Record t : Type := mk {
  Type_ : string;
  Offset : Z;
  Length : Z }.
End MessageEntity.

(** [BaseInputMedia] is a base type for the InputMedia types. *)
Module BaseInputMedia.
Record t : Type := mk {
  Type_ : string;
  Media : option RequestFileData;
  Caption : string;
  ParseMode : string;
  CaptionEntities : list MessageEntity.t }.

(** The assignment [m.Media = v] on a struct value. *)
Definition set_Media (b : t) (v : option RequestFileData) : t :=
  mk (Type_ b) v (Caption b) (ParseMode b) (CaptionEntities b).
End BaseInputMedia.

Module InputMediaPhoto.
Record t : Type := mk { BaseInputMedia : BaseInputMedia.t }.

Definition Media (m : t) : option RequestFileData :=
  BaseInputMedia.Media (BaseInputMedia m).
Definition set_Media (m : t) (v : option RequestFileData) : t :=
  mk (BaseInputMedia.set_Media (BaseInputMedia m) v).
End InputMediaPhoto.

Module InputMediaVideo.
Record t : Type := mk {
  BaseInputMedia : BaseInputMedia.t;
  Thumb : option RequestFileData;
  Width : Z;
  Height : Z;
  Duration : Z;
  SupportsStreaming : bool }.

Definition Media (m : t) : option RequestFileData :=
  BaseInputMedia.Media (BaseInputMedia m).
Definition set_Media (m : t) (v : option RequestFileData) : t :=
  mk (BaseInputMedia.set_Media (BaseInputMedia m) v) (Thumb m)
     (Width m) (Height m) (Duration m) (SupportsStreaming m).
Definition set_Thumb (m : t) (v : option RequestFileData) : t :=
  mk (BaseInputMedia m) v (Width m) (Height m) (Duration m)
     (SupportsStreaming m).
End InputMediaVideo.

Module InputMediaAnimation.
Record t : Type := mk {
  BaseInputMedia : BaseInputMedia.t;
  Thumb : option RequestFileData;
  Width : Z;
  Height : Z;
  Duration : Z }.
End InputMediaAnimation.

Module InputMediaAudio.
Record t : Type := mk {
  BaseInputMedia : BaseInputMedia.t;
  Thumb : option RequestFileData;
  Duration : Z;
  Performer : string;
  Title : string }.

Definition Media (m : t) : option RequestFileData :=
  BaseInputMedia.Media (BaseInputMedia m).
Definition set_Media (m : t) (v : option RequestFileData) : t :=
  mk (BaseInputMedia.set_Media (BaseInputMedia m) v) (Thumb m)
     (Duration m) (Performer m) (Title m).
Definition set_Thumb (m : t) (v : option RequestFileData) : t :=
  mk (BaseInputMedia m) v (Duration m) (Performer m) (Title m).
End InputMediaAudio.

Module InputMediaDocument.
Record t : Type := mk {
  BaseInputMedia : BaseInputMedia.t;
  Thumb : option RequestFileData;
  DisableContentTypeDetection : bool }.

Definition Media (m : t) : option RequestFileData :=
  BaseInputMedia.Media (BaseInputMedia m).
Definition set_Media (m : t) (v : option RequestFileData) : t :=
  mk (BaseInputMedia.set_Media (BaseInputMedia m) v) (Thumb m)
     (DisableContentTypeDetection m).
Definition set_Thumb (m : t) (v : option RequestFileData) : t :=
  mk (BaseInputMedia m) v (DisableContentTypeDetection m).
End InputMediaDocument.

(** A value of the empty interface [interface{}], as the media-group
    functions receive it: nil, one of the input media structs held by
    value, or a value of any other dynamic type (a pointer to one of the
    structs, a string, ...), of which only the type name is kept. *)
Inductive Interface : Type :=
| Nil
| OfInputMediaPhoto (m : InputMediaPhoto.t)
| OfInputMediaVideo (m : InputMediaVideo.t)
| OfInputMediaAnimation (m : InputMediaAnimation.t)
| OfInputMediaAudio (m : InputMediaAudio.t)
| OfInputMediaDocument (m : InputMediaDocument.t)
| OfOther (dynamic_type : string).

(** ** Media-group rewriting *)

(** [fmt.Sprintf] at a format that holds one verb [%d]. *)
Fixpoint Sprintf (format : string) (d : Z) : string :=
  match format with
  | EmptyString => EmptyString
  | String "%"%char (String "d"%char rest) => Itoa d +:+ rest
  | String c rest => String c (Sprintf rest d)
  end.

(** The condition [m.Thumb != nil && m.Thumb.NeedsUpload()]: the method is
    called only on a thumbnail that is not nil. *)
Definition Thumb_NeedsUpload (thumb : option RequestFileData) : bool :=
  match thumb with
  | Some f => NeedsUpload f
  | None => false
  end.

(** [func prepareInputMediaParam(inputMedia interface{}, idx int) interface{}].
    The type switch binds [m] to a copy of the struct; the assignments
    change the copy, which is returned.  No case: nil is returned. *)
Definition prepareInputMediaParam (inputMedia : Interface) (idx : Z)
  : outcome Interface :=
  match inputMedia with
  | OfInputMediaPhoto m =>
      let! up := call_NeedsUpload (InputMediaPhoto.Media m) in
      let m :=
        if up
        then InputMediaPhoto.set_Media m
               (Some (fileAttach (Sprintf "attach://file-%d" idx)))
        else m in
      Returns (OfInputMediaPhoto m)
  | OfInputMediaVideo m =>
      let! up := call_NeedsUpload (InputMediaVideo.Media m) in
      let m :=
        if up
        then InputMediaVideo.set_Media m
               (Some (fileAttach (Sprintf "attach://file-%d" idx)))
        else m in
      let m :=
        if Thumb_NeedsUpload (InputMediaVideo.Thumb m)
        then InputMediaVideo.set_Thumb m
               (Some (fileAttach (Sprintf "attach://file-%d-thumb" idx)))
        else m in
      Returns (OfInputMediaVideo m)
  | OfInputMediaAudio m =>
      let! up := call_NeedsUpload (InputMediaAudio.Media m) in
      let m :=
        if up
        then InputMediaAudio.set_Media m
               (Some (fileAttach (Sprintf "attach://file-%d" idx)))
        else m in
      let m :=
        if Thumb_NeedsUpload (InputMediaAudio.Thumb m)
        then InputMediaAudio.set_Thumb m
               (Some (fileAttach (Sprintf "attach://file-%d-thumb" idx)))
        else m in
      Returns (OfInputMediaAudio m)
  | OfInputMediaDocument m =>
      let! up := call_NeedsUpload (InputMediaDocument.Media m) in
      let m :=
        if up
        then InputMediaDocument.set_Media m
               (Some (fileAttach (Sprintf "attach://file-%d" idx)))
        else m in
      let m :=
        if Thumb_NeedsUpload (InputMediaDocument.Thumb m)
        then InputMediaDocument.set_Thumb m
               (Some (fileAttach (Sprintf "attach://file-%d-thumb" idx)))
        else m in
      Returns (OfInputMediaDocument m)
  | _ => Returns Nil
  end.

(** [func prepareInputMediaFile(inputMedia interface{}, idx int) []RequestFile].
    Both the primary file and the thumbnail are named by the format
    ["file-%d"]. *)
Definition prepareInputMediaFile (inputMedia : Interface) (idx : Z)
  : outcome (list RequestFile.t) :=
  let files : list RequestFile.t := [] in
  match inputMedia with
  | OfInputMediaPhoto m =>
      let! up := call_NeedsUpload (InputMediaPhoto.Media m) in
      let files :=
        if up
        then files ++ [RequestFile.mk (Sprintf "file-%d" idx)
                         (InputMediaPhoto.Media m)]
        else files in
      Returns files
  | OfInputMediaVideo m =>
      let! up := call_NeedsUpload (InputMediaVideo.Media m) in
      let files :=
        if up
        then files ++ [RequestFile.mk (Sprintf "file-%d" idx)
                         (InputMediaVideo.Media m)]
        else files in
      let files :=
        if Thumb_NeedsUpload (InputMediaVideo.Thumb m)
        then files ++ [RequestFile.mk (Sprintf "file-%d" idx)
                         (InputMediaVideo.Thumb m)]
        else files in
      Returns files
  | OfInputMediaDocument m =>
      let! up := call_NeedsUpload (InputMediaDocument.Media m) in
      let files :=
        if up
        then files ++ [RequestFile.mk (Sprintf "file-%d" idx)
                         (InputMediaDocument.Media m)]
        else files in
      let files :=
        if Thumb_NeedsUpload (InputMediaDocument.Thumb m)
        then files ++ [RequestFile.mk (Sprintf "file-%d" idx)
                         (InputMediaDocument.Thumb m)]
        else files in
      Returns files
  | OfInputMediaAudio m =>
      let! up := call_NeedsUpload (InputMediaAudio.Media m) in
      let files :=
        if up
        then files ++ [RequestFile.mk (Sprintf "file-%d" idx)
                         (InputMediaAudio.Media m)]
        else files in
      let files :=
        if Thumb_NeedsUpload (InputMediaAudio.Thumb m)
        then files ++ [RequestFile.mk (Sprintf "file-%d" idx)
                         (InputMediaAudio.Thumb m)]
        else files in
      Returns files
  | _ => Returns files
  end.

(** The built-in [copy(dst, src)] on the elements of two slices: the first
    [min (len dst) (len src)] elements of [dst] are overwritten. *)
Definition copy {A} (dst src : list A) : list A :=
  take (length dst) src ++ drop (length src) dst.

(** The body of the loop of [prepareInputMediaForParams], from index [idx]
    on, over the remaining elements [rest] of the ranged slice. *)
Fixpoint prepareInputMediaForParams_loop (idx : nat) (rest : list Interface)
  (newMedia : list Interface) : outcome (list Interface) :=
  match rest with
  | [] => Returns newMedia
  | media :: rest =>
      let! param := prepareInputMediaParam media (Z.of_nat idx) in
      let newMedia :=
        match param with
        | Nil => newMedia
        | _ => <[idx := param]> newMedia
        end in
      prepareInputMediaForParams_loop (S idx) rest newMedia
  end.

(** [func prepareInputMediaForParams(inputMedia []interface{}) []interface{}]
    on the elements of the slices: [make], [copy], then the loop. *)
Definition prepareInputMediaForParams (inputMedia : list Interface)
  : outcome (list Interface) :=
  let newMedia := replicate (length inputMedia) Nil in
  let newMedia := copy newMedia inputMedia in
  prepareInputMediaForParams_loop 0 inputMedia newMedia.

(** The body of the loop of [prepareInputMediaForFiles].  The slice that
    [prepareInputMediaFile] returns is never nil, so it is always appended. *)
Fixpoint prepareInputMediaForFiles_loop (idx : nat) (rest : list Interface)
  (files : list RequestFile.t) : outcome (list RequestFile.t) :=
  match rest with
  | [] => Returns files
  | media :: rest =>
      let! file := prepareInputMediaFile media (Z.of_nat idx) in
      prepareInputMediaForFiles_loop (S idx) rest (files ++ file)
  end.

(** [func prepareInputMediaForFiles(inputMedia []interface{}) []RequestFile]. *)
Definition prepareInputMediaForFiles (inputMedia : list Interface)
  : outcome (list RequestFile.t) :=
  prepareInputMediaForFiles_loop 0 inputMedia [].


(** [MediaGroupConfig] allows you to send a group of media. *)
Module MediaGroupConfig.
Record t : Type := mk {
  ChatID : Z;
  ChannelUsername : string;
  Media : list Interface;
  DisableNotification : bool;
  ReplyToMessageID : Z;
  MessageThreadID : Z;
  ProtectContent : bool;
  AllowPaidBroadcast : bool;
  MessageEffectID : string;
  ReplyParameters : option jsonable;
  BusinessConnectionID : string }.

Definition method (config : t) : string := "sendMediaGroup".

Definition files (config : t) : outcome (list RequestFile.t) :=
  prepareInputMediaForFiles (Media config).
End MediaGroupConfig.

(** The request configurations embedded here, as values of the interface
    [Chattable]. *)
Inductive Chattable : Type :=
| OfMessageConfig (config : MessageConfig.t)
| OfPhotoConfig (config : PhotoConfig.t)
| OfMediaGroupConfig (config : MediaGroupConfig.t).

(** Modelled from the spec: the dispatch layer (bot.go) is not among the
    sources; it "accepts any Request Descriptor, calls params(); if the type
    additionally exposes files()" it takes the Named File Parts from there.
    [MessageConfig] has no method [files], so it has no Named File Parts. *)
Definition named_file_parts (c : Chattable) : outcome (list RequestFile.t) :=
  match c with
  | OfMessageConfig _ => Returns []
  | OfPhotoConfig config => Returns (PhotoConfig.files config)
  | OfMediaGroupConfig config => MediaGroupConfig.files config
  end.

(** ** Slices in a store of backing arrays *)

(** The media-group functions receive a slice, that is a window on a
    backing array that other slices of the caller may share.  This module
    runs them on a store of arrays, so that what they write is visible. *)
Module Heap.
Abbreviation loc := nat.
Abbreviation store := (gmap nat (list Interface)).

Record slice : Type := mk_slice { array : loc; offset : nat; len : nat }.

(** A computation on the store that may panic. *)
Definition M (A : Type) : Type := store -> outcome (A * store).

Definition ret {A} (a : A) : M A := fun h => Returns (a, h).

Definition bind {A B} (m : M A) (k : A -> M B) : M B :=
  fun h =>
    match m h with
    | Returns (a, h') => k a h'
    | Panics why => Panics why
    end.

Definition lift {A} (o : outcome A) : M A :=
  fun h =>
    match o with
    | Returns a => Returns (a, h)
    | Panics why => Panics why
    end.

Notation "x <- m ;; k" := (bind m (fun x => k))
  (at level 100, m at next level, right associativity).

(** The elements a slice shows, when it lies within its array. *)
Definition elements (s : slice) (h : store) : option (list Interface) :=
  match h !! array s with
  | Some arr =>
      if decide (offset s + len s <= length arr)
      then Some (take (len s) (drop (offset s) arr))
      else None
  | None => None
  end.

Definition out_of_range : string := "runtime error: index out of range".
Definition no_array : string := "slice without a backing array".

(** [make([]interface{}, n)]: a new array of [n] nils, at an address that
    is not in use. *)
Definition make (n : nat) : M slice :=
  fun h =>
    let a := fresh (dom h) in
    Returns (mk_slice a 0 n, <[a := replicate n Nil]> h).

(** [s[i]] read. *)
Definition index (s : slice) (i : nat) : M Interface :=
  fun h =>
    if decide (i < len s)
    then match elements s h with
         | Some l =>
             match l !! i with
             | Some v => Returns (v, h)
             | None => Panics out_of_range
             end
         | None => Panics no_array
         end
    else Panics out_of_range.

(** [s[i] = v]. *)
Definition assign (s : slice) (i : nat) (v : Interface) : M unit :=
  fun h =>
    if decide (i < len s)
    then match h !! array s with
         | Some arr =>
             if decide (offset s + len s <= length arr)
             then Returns (tt, <[array s := <[offset s + i := v]> arr]> h)
             else Panics no_array
         | None => Panics no_array
         end
    else Panics out_of_range.

(** [copy(dst, src)]: the elements of [src] are read, then written over
    the window of [dst]. *)
Definition copy (dst src : slice) : M nat :=
  fun h =>
    match elements dst h, elements src h, h !! array dst with
    | Some to, Some from, Some arr =>
        Returns (min (len dst) (len src),
                 <[array dst := take (offset dst) arr ++ copy to from
                                  ++ drop (offset dst + len dst) arr]> h)
    | _, _, _ => Panics no_array
    end.

(** [for idx, media := range s { body }], from index [idx] on, for [n]
    more elements; [acc] is what the body carries from one iteration to the
    next. *)
Fixpoint range {T} (s : slice) (body : nat -> Interface -> T -> M T)
  (idx n : nat) (acc : T) : M T :=
  match n with
  | 0 => ret acc
  | S n =>
      media <- index s idx ;;
      acc <- body idx media acc ;;
      range s body (S idx) n acc
  end.

(** [prepareInputMediaForParams] on a slice of the store. *)
Definition prepareInputMediaForParams (inputMedia : slice) : M slice :=
  newMedia <- make (len inputMedia) ;;
  _ <- copy newMedia inputMedia ;;
  _ <- range inputMedia
         (fun idx media _ =>
            param <- lift (prepareInputMediaParam media (Z.of_nat idx)) ;;
            match param with
            | Nil => ret tt
            | _ => assign newMedia idx param
            end)
         0 (len inputMedia) tt ;;
  ret newMedia.

(** [prepareInputMediaForFiles] on a slice of the store; the slice of
    files it builds is its own. *)
Definition prepareInputMediaForFiles (inputMedia : slice)
  : M (list RequestFile.t) :=
  range inputMedia
    (fun idx media files =>
       file <- lift (prepareInputMediaFile media (Z.of_nat idx)) ;;
       ret (files ++ file))
    0 (len inputMedia) [].
End Heap.

(** ** The vocabulary of the specification *)

(** The variants the rewriter handles: photo, video, audio, document. *)
Definition supported (x : Interface) : bool :=
  match x with
  | OfInputMediaPhoto _ | OfInputMediaVideo _
  | OfInputMediaAudio _ | OfInputMediaDocument _ => true
  | _ => false
  end.

(** The primary ("media") reference of a handled item. *)
Definition item_media (x : Interface) : option RequestFileData :=
  match x with
  | OfInputMediaPhoto m => InputMediaPhoto.Media m
  | OfInputMediaVideo m => InputMediaVideo.Media m
  | OfInputMediaAudio m => InputMediaAudio.Media m
  | OfInputMediaDocument m => InputMediaDocument.Media m
  | _ => None
  end.

(** The secondary ("thumbnail") reference of a handled item; a photo has
    no such field. *)
Definition item_thumb (x : Interface) : option RequestFileData :=
  match x with
  | OfInputMediaVideo m => InputMediaVideo.Thumb m
  | OfInputMediaAudio m => InputMediaAudio.Thumb m
  | OfInputMediaDocument m => InputMediaDocument.Thumb m
  | _ => None
  end.

(** An item with both references erased: its variant and all its other
    fields. *)
Definition other_fields (x : Interface) : Interface :=
  match x with
  | OfInputMediaPhoto m => OfInputMediaPhoto (InputMediaPhoto.set_Media m None)
  | OfInputMediaVideo m =>
      OfInputMediaVideo
        (InputMediaVideo.set_Thumb (InputMediaVideo.set_Media m None) None)
  | OfInputMediaAudio m =>
      OfInputMediaAudio
        (InputMediaAudio.set_Thumb (InputMediaAudio.set_Media m None) None)
  | OfInputMediaDocument m =>
      OfInputMediaDocument
        (InputMediaDocument.set_Thumb (InputMediaDocument.set_Media m None) None)
  | _ => x
  end.

(** An Input Media Item of the data model: one of the four variants,
    carrying a primary File Reference. *)
Definition InputMediaItem (x : Interface) : Prop :=
  supported x = true /\ is_Some (item_media x).

(** What the rewriter needs of an element to run: a handled item carries
    its primary reference.  Any other value qualifies. *)
Definition media_present (x : Interface) : Prop :=
  supported x = true -> is_Some (item_media x).

(** No reference of the item requires upload. *)
Definition no_upload (x : Interface) : Prop :=
  (forall f, item_media x = Some f -> NeedsUpload f = false) /\
  (forall f, item_thumb x = Some f -> NeedsUpload f = false).

(** The placeholder a reference is replaced with, when it requires upload. *)
Definition placeholder (token : string) (f : RequestFileData) : RequestFileData :=
  if NeedsUpload f then fileAttach token else f.

(** The file parts the specification describes for the item at position
    [i]: ["file-<i>"] for the media reference and ["file-<i>-thumb"] for the
    thumbnail, each when it requires upload. *)
Definition file_parts_spec (i : nat) (x : Interface) : list RequestFile.t :=
  match item_media x with
  | Some f =>
      if NeedsUpload f
      then [RequestFile.mk ("file-" +:+ Itoa (Z.of_nat i)) (Some f)]
      else []
  | None => []
  end ++
  match item_thumb x with
  | Some f =>
      if NeedsUpload f
      then [RequestFile.mk ("file-" +:+ Itoa (Z.of_nat i) +:+ "-thumb") (Some f)]
      else []
  | None => []
  end.

(** The first scan, in order, that finds its sub-payload populated. *)
Fixpoint first_populated {A R} (scans : list (A -> option R)) (a : A)
  : option R :=
  match scans with
  | [] => None
  | scan :: scans =>
      match scan a with
      | Some r => Some r
      | None => first_populated scans a
      end
  end.

(** The priority order of the sender projection, as the specification
    lists it; each scan yields the sender field of its sub-payload when the
    sub-payload is populated. *)
Definition sender_priority : list (Update.t -> option (option User.t)) :=
  [ (fun u => Message.From <$> Update.Message u);
    (fun u => Message.From <$> Update.EditedMessage u);
    (fun u => Message.From <$> Update.ChannelPost u);
    (fun u => Message.From <$> Update.EditedChannelPost u);
    (fun u => BusinessConnection.User <$> Update.BusinessConnection u);
    (fun u => Message.From <$> Update.BusinessMessage u);
    (fun u => Message.From <$> Update.EditedBusinessMessage u);
    (fun u => MessageReactionUpdated.User <$> Update.MessageReaction u);
    (fun u => InlineQuery.From <$> Update.InlineQuery u);
    (fun u => ChosenInlineResult.From <$> Update.ChosenInlineResult u);
    (fun u => CallbackQuery.From <$> Update.CallbackQuery u);
    (fun u => ShippingQuery.From <$> Update.ShippingQuery u);
    (fun u => PreCheckoutQuery.From <$> Update.PreCheckoutQuery u);
    (fun u => PollAnswer.User <$> Update.PollAnswer u);
    (fun u => ChatMemberUpdated.From <$> Update.ChatMember u);
    (fun u => ChatJoinRequest.From <$> Update.ChatJoinRequest u) ].

(** An envelope in which only the bot's own membership update is
    populated. *)
Definition only_MyChatMember (id : Z) (c : ChatMemberUpdated.t) : Update.t :=
  Update.mk id None None None None None None None None None None None None
    None None None None None None (Some c) None None None None None.

(** An envelope in which only the callback query is populated. *)
Definition only_CallbackQuery (id : Z) (q : CallbackQuery.t) : Update.t :=
  Update.mk id None None None None None None None None None None None None
    (Some q) None None None None None None None None None None None.

(** A callback query that comes from a message sent in inline mode: it
    carries the inline message identifier and no message. *)
Definition inline_callback : CallbackQuery.t :=
  CallbackQuery.mk "4382bfdwdsb323b2d9"
    (Some (User.mk 1111111 false "Test" "Testusername"))
    None "AgAAAKkFAAAi0EBJu4GX" "-3068150162124083399" "Data from button"
    EmptyString.

(** A chat target given by its integer identifier, nothing else set. *)
Definition chat_target (id : Z) : BaseChat.t :=
  BaseChat.mk id EmptyString false 0 None false false EmptyString 0.

(** A sendMessage request whose only populated field is the chat target. *)
Definition message_to (id : Z) : MessageConfig.t :=
  MessageConfig.mk (chat_target id) EmptyString EmptyString None false None
    false None EmptyString.

(** A sendPhoto request with the given primary file and thumbnail, to chat
    42, nothing else set. *)
Definition photo_to_42 (file thumb : option RequestFileData) : PhotoConfig.t :=
  PhotoConfig.mk (BaseFile.mk (chat_target 42) file) thumb
    EmptyString EmptyString None EmptyString false false false None.

(** Whether a file part wraps a reference that requires upload. *)
Definition part_requires_upload (part : RequestFile.t) : bool :=
  match RequestFile.Data part with
  | Some f => NeedsUpload f
  | None => false
  end.

(** A sendPhoto request with a remote URL as primary file and a local path
    as thumbnail. *)
Definition photo_by_url_local_thumb : PhotoConfig.t :=
  photo_to_42 (Some (FileURL "https://example.com/image.jpg"))
              (Some (FilePath "./tests/image.jpg")).

(** The element the loop of [prepareInputMediaForParams] leaves at
    position [i] for the element [x]: the parameter when there is one,
    else the copied element. *)
Definition rewritten (i : nat) (x : Interface) : Interface :=
  match prepareInputMediaParam x (Z.of_nat i) with
  | Returns Nil => x
  | Returns param => param
  | Panics _ => x
  end.

(** The files the loop of [prepareInputMediaForFiles] appends for the
    element [x] at position [i]. *)
Definition parts_of (i : nat) (x : Interface) : list RequestFile.t :=
  match prepareInputMediaFile x (Z.of_nat i) with
  | Returns file => file
  | Panics _ => []
  end.

(** Example items of a media group. *)
Definition photo_item (media : option RequestFileData) : Interface :=
  OfInputMediaPhoto
    (InputMediaPhoto.mk
       (BaseInputMedia.mk "photo" media EmptyString EmptyString [])).

Definition video_item (media thumb : option RequestFileData) : Interface :=
  OfInputMediaVideo
    (InputMediaVideo.mk (BaseInputMedia.mk "video" media "A video" EmptyString [])
       thumb 640 480 12 true).

Definition animation_item (media thumb : option RequestFileData) : Interface :=
  OfInputMediaAnimation
    (InputMediaAnimation.mk
       (BaseInputMedia.mk "animation" media EmptyString EmptyString [])
       thumb 320 240 3).

(** A video uploaded from a local file, with a thumbnail uploaded from a
    local file. *)
Definition video_with_local_thumb : Interface :=
  video_item (Some (FilePath "./tests/video.mp4"))
             (Some (FilePath "./tests/image.jpg")).

(** A group of a local photo and a video sent by URL with a local
    thumbnail. *)
Definition example_group : list Interface :=
  [ photo_item (Some (FilePath "./tests/image.jpg"));
    video_item (Some (FileURL "https://example.com/video.mp4"))
               (Some (FilePath "./tests/thumb.jpg")) ].

(** A group sent by URL and by file identifier only. *)
Definition remote_group : list Interface :=
  [ photo_item (Some (FileURL "https://example.com/image.jpg"));
    video_item (Some (FileID "BAADBAADAgADtB4AAQ")) None ].

(** An animation uploaded from a local file: a variant the rewriter has
    no case for. *)
Definition local_animation : Interface :=
  animation_item (Some (FilePath "./tests/video.mp4")) None.

(** Running both rewriter outputs on the same slice, one after the
    other. *)
Definition run_rewriter (inputMedia : Heap.slice)
  : Heap.M (Heap.slice * list RequestFile.t) :=
  Heap.bind (Heap.prepareInputMediaForParams inputMedia) (fun newMedia =>
  Heap.bind (Heap.prepareInputMediaForFiles inputMedia) (fun files =>
  Heap.ret (newMedia, files))).

(** A store in which the caller holds one array of four elements, and a
    slice of the caller that shows its two middle elements. *)
Definition caller_store : gmap nat (list Interface) :=
  {[ 7 := [ local_animation;
            photo_item (Some (FilePath "./tests/image.jpg"));
            video_with_local_thumb;
            Nil ] ]}.

Definition caller_slice : Heap.slice := Heap.mk_slice 7 1 2.

(** The elements [caller_slice] shows in [caller_store]. *)
Definition caller_elements : list Interface :=
  [ photo_item (Some (FilePath "./tests/image.jpg")); video_with_local_thumb ].

(** ** More of the configurations and entities *)

(** The file parts [prepareInputMediaForFiles] writes for the item at
    position [i]: the media reference, then the thumbnail, each when it
    requires upload, both under the name ["file-<i>"]. *)
Definition file_parts_written (i : nat) (x : Interface) : list RequestFile.t :=
  match item_media x with
  | Some f =>
      if NeedsUpload f
      then [RequestFile.mk ("file-" +:+ Itoa (Z.of_nat i)) (Some f)]
      else []
  | None => []
  end ++
  match item_thumb x with
  | Some f =>
      if NeedsUpload f
      then [RequestFile.mk ("file-" +:+ Itoa (Z.of_nat i)) (Some f)]
      else []
  | None => []
  end.

(** [BaseEdit] is the base type of all chat edits. *)
Module BaseEdit.
Record t : Type := mk {
  ChatID : Z;
  ChannelUsername : string;
  MessageID : Z;
  InlineMessageID : string;
  ReplyMarkup : option jsonable;
  BusinessConnectionID : string;
  LinkPreviewOptions : option jsonable }.
End BaseEdit.

(** [EditMessageMediaConfig] allows you to make an editMessageMedia
    request; its one media is handled as the item of index 0. *)
Module EditMessageMediaConfig.
Record t : Type := mk {
  BaseEdit : BaseEdit.t;
  Media : Interface }.

Definition method (config : t) : string := "editMessageMedia".

Definition files (config : t) : outcome (list RequestFile.t) :=
  prepareInputMediaFile (Media config) 0.
End EditMessageMediaConfig.

(** [VideoConfig] contains information about a SendVideo request. *)
Module VideoConfig.
Record t : Type := mk {
  BaseFile : BaseFile.t;
  Duration : Z;
  Width : Z;
  Height : Z;
  Thumbnail : option RequestFileData;
  Cover : option RequestFileData;
  StartTimeStamp : Z;
  Caption : string;
  ParseMode : string;
  ShowCaptionAboveMedia : bool;
  HasSpoiler : bool;
  SupportsStreaming : bool;
  AllowPaidBroadcast : bool;
  CaptionEntities : option jsonable;
  MessageEffectID : string;
  ReplyParameters : option jsonable }.

Definition method (config : t) : string := "sendVideo".

(** [func (config VideoConfig) files() []RequestFile]. *)
Definition files (config : t) : list RequestFile.t :=
  let files := [RequestFile.mk "video" (BaseFile.File (BaseFile config))] in
  let files :=
    match Thumbnail config with
    | Some _ => files ++ [RequestFile.mk "thumbnail" (Thumbnail config)]
    | None => files
    end in
  let files :=
    match Cover config with
    | Some _ => files ++ [RequestFile.mk "cover" (Cover config)]
    | None => files
    end in
  files.
End VideoConfig.

(** The kind predicates of [Chat]. *)
Module ChatKind.
Definition IsPrivate (c : Chat.t) : bool := bool_decide (Chat.Type_ c = "private").
Definition IsGroup (c : Chat.t) : bool := bool_decide (Chat.Type_ c = "group").
Definition IsSuperGroup (c : Chat.t) : bool :=
  bool_decide (Chat.Type_ c = "supergroup").
Definition IsChannel (c : Chat.t) : bool := bool_decide (Chat.Type_ c = "channel").
End ChatKind.

(** ** Commands in messages (gift.go) *)

Definition slice_out_of_range : string :=
  "runtime error: slice bounds out of range".

(** [len(s)] of a string: its number of bytes. *)
Definition len (s : string) : Z := Z.of_nat (String.length s).

(** The slice expression [s[lo:hi]] on a string: the bytes from [lo] up to
    [hi], and a panic unless [0 <= lo <= hi <= len(s)]. *)
Definition slice_string (s : string) (lo hi : Z) : outcome string :=
  if decide (0 <= lo /\ lo <= hi /\ hi <= len s)%Z
  then Returns (String.substring (Z.to_nat lo) (Z.to_nat (hi - lo)) s)
  else Panics slice_out_of_range.

(** The position of the first byte [c] of [s]. *)
Fixpoint index_byte (c : ascii) (s : string) : option nat :=
  match s with
  | EmptyString => None
  | String a s =>
      if decide (a = c) then Some 0 else S <$> index_byte c s
  end.

(** [strings.Index(s, substr)] for a [substr] of the one byte [c]: the
    index of its first occurrence, or -1. *)
Definition strings_Index (s : string) (c : ascii) : Z :=
  match index_byte c s with
  | Some i => Z.of_nat i
  | None => (-1)%Z
  end.

(** The kind predicates of [MessageEntity] that the commands use. *)
Module MessageEntityKind.
Definition IsCommand (e : MessageEntity.t) : bool :=
  bool_decide (MessageEntity.Type_ e = "bot_command").
Definition IsMention (e : MessageEntity.t) : bool :=
  bool_decide (MessageEntity.Type_ e = "mention").
End MessageEntityKind.

(** [Message], with the fields its command methods read: the text and the
    entities of the text. *)
Module CommandMessage.
Record t : Type := mk {
  Text : string;
  Entities : list MessageEntity.t }.

(** [func (m *Message) IsCommand() bool]: the message starts with a
    "bot_command" entity. *)
Definition IsCommand (m : t) : bool :=
  match Entities m with
  | [] => false
  | entity :: _ =>
      bool_decide (MessageEntity.Offset entity = 0%Z)
      && MessageEntityKind.IsCommand entity
  end.

(** [func (m *Message) CommandWithAt() string]. *)
Definition CommandWithAt (m : t) : outcome string :=
  if negb (IsCommand m) then Returns EmptyString
  else
    match Entities m with
    | entity :: _ => slice_string (Text m) 1 (MessageEntity.Length entity)
    | [] => Panics "runtime error: index out of range"
    end.

(** [func (m *Message) Command() string]: the command, cut at the first
    "@". *)
Definition Command (m : t) : outcome string :=
  let! command := CommandWithAt m in
  let i := strings_Index command "@"%char in
  if decide (i <> (-1)%Z)
  then slice_string command 0 i
  else Returns command.

(** [func (m *Message) CommandArguments() string]. *)
Definition CommandArguments (m : t) : outcome string :=
  if negb (IsCommand m) then Returns EmptyString
  else
    match Entities m with
    | entity :: _ =>
        if decide (len (Text m) = MessageEntity.Length entity)
        then Returns EmptyString
        else slice_string (Text m) (MessageEntity.Length entity + 1)
               (len (Text m))
    | [] => Panics "runtime error: index out of range"
    end.
End CommandMessage.

(** The priority order of the chat projection; each scan yields what
    selecting the chat of its sub-payload does, when the sub-payload is
    populated. *)
Definition chat_priority
  : list (Update.t -> option (outcome (option Chat.t))) :=
  [ (fun u => Returns ∘ Message.Chat <$> Update.Message u);
    (fun u => Returns ∘ Message.Chat <$> Update.EditedMessage u);
    (fun u => Returns ∘ Message.Chat <$> Update.ChannelPost u);
    (fun u => Returns ∘ Message.Chat <$> Update.EditedChannelPost u);
    (fun u => Returns ∘ Message.Chat <$> Update.BusinessMessage u);
    (fun u => Returns ∘ Message.Chat <$> Update.EditedBusinessMessage u);
    (fun u => Returns ∘ BusinessMessagesDeleted.Chat
                <$> Update.DeletedBusinessMessages u);
    (fun u => Returns ∘ MessageReactionUpdated.Chat
                <$> Update.MessageReaction u);
    (fun u => Returns ∘ MessageReactionCountUpdated.Chat
                <$> Update.MessageReactionCount u);
    (fun u =>
       (fun q =>
          match CallbackQuery.Message q with
          | Some m => Returns (Message.Chat m)
          | None => Panics nil_dereference
          end) <$> Update.CallbackQuery u);
    (fun u => Returns ∘ ChatMemberUpdated.Chat <$> Update.MyChatMember u);
    (fun u => Returns ∘ ChatMemberUpdated.Chat <$> Update.ChatMember u);
    (fun u => Returns ∘ ChatJoinRequest.Chat <$> Update.ChatJoinRequest u);
    (fun u => Returns ∘ ChatBoostUpdated.Chat <$> Update.ChatBoost u);
    (fun u => Returns ∘ ChatBoostRemoved.Chat <$> Update.RemovedChatBoost u) ].

(** The sub-payloads [FromChat] tests before the callback query. *)
Definition before_callback (u : Update.t) : Prop :=
  Update.Message u = None /\ Update.EditedMessage u = None /\
  Update.ChannelPost u = None /\ Update.EditedChannelPost u = None /\
  Update.BusinessMessage u = None /\ Update.EditedBusinessMessage u = None /\
  Update.DeletedBusinessMessages u = None /\
  Update.MessageReaction u = None /\ Update.MessageReactionCount u = None.

(** A message that starts with the command "/start@mybot". *)
Definition start_entity : MessageEntity.t :=
  MessageEntity.mk "bot_command" 0 12.

Definition start_message : CommandMessage.t :=
  CommandMessage.mk "/start@mybot hello world" [start_entity].

(** A message of plain text, without entities. *)
Definition plain_message : CommandMessage.t :=
  CommandMessage.mk "hello world" [].

(** The error [AddInterface] reports for a value, whatever the key and the
    mapping. *)
Definition marshal_error (value : option jsonable) : option error :=
  match value with
  | Some (MarshalFails why) => Some (SerializationError why)
  | _ => None
  end.


(** A sendMessage request to chat 42 whose reply markup, an interface
    value, holds something that cannot be marshalled. *)
Definition message_with_bad_markup : MessageConfig.t :=
  MessageConfig.mk
    (BaseChat.mk 42 EmptyString false 0
       (Some (MarshalFails "json: unsupported type: chan int"))
       false false EmptyString 0)
    "hello" EmptyString None true None false None EmptyString.

(** * Update projections *)

Section UpdateProjections.

Local Ltac scan_field f :=
  destruct f; simpl; [reflexivity |].

(** C5. For every update, [SentFrom] inspects the sub-payloads in the
    priority order message, edited message, channel post, edited channel
    post, business connection, business message, edited business message,
    message reaction, inline query, chosen inline result, callback query,
    shipping query, pre-checkout query, poll answer, chat-member update,
    join request; it returns the sender field of the first one that is
    populated, and nil when none of them is. *)
Theorem SentFrom_priority_order (u : Update.t) :
  Update.SentFrom u = default None (first_populated sender_priority u).
Proof.
  destruct u as [id msg emsg cpost ecpost bconn bmsg ebmsg dbm react reactc
                 iq cir cq sq pcq pmp poll pa mcm cm cjr boost rboost ppm].
  unfold Update.SentFrom, sender_priority; simpl.
  scan_field msg. scan_field emsg. scan_field cpost. scan_field ecpost.
  scan_field bconn. scan_field bmsg. scan_field ebmsg. scan_field react.
  scan_field iq. scan_field cir. scan_field cq. scan_field sq.
  scan_field pcq. scan_field pa. scan_field cm. scan_field cjr.
  reflexivity.
Qed.

(** C10. When only the bot's own membership update is populated,
    [SentFrom] returns nil and [FromChat] returns the chat of that
    sub-payload: [MyChatMember] is scanned for the chat only. *)
Theorem MyChatMember_chat_without_sender (id : Z) (c : ChatMemberUpdated.t) :
  Update.SentFrom (only_MyChatMember id c) = None /\
  Update.FromChat (only_MyChatMember id c) = Returns (ChatMemberUpdated.Chat c).
Proof. split; reflexivity. Qed.

(** C2. [FromChat] on an envelope whose callback query carries no message
    does not return: selecting [.Message.Chat] panics. *)
Theorem FromChat_inline_callback_panics :
  CallbackQuery.Message inline_callback = None /\
  Update.FromChat (only_CallbackQuery 10000 inline_callback)
    = Panics nil_dereference /\
  ~ returns (Update.FromChat (only_CallbackQuery 10000 inline_callback)).
Proof.
  split; [reflexivity |]. split; [reflexivity |].
  intros [chat Hchat]. discriminate Hchat.
Qed.

End UpdateProjections.

(** * Request configurations *)

Section Configs.

(** C4 (amended). A sendMessage request whose only populated field is the
    chat target, a non-zero integer, builds the mapping that holds the chat
    identifier in decimal and every boolean of the request as "false", no
    other key, reports no error, and has no file parts. *)
Theorem MessageConfig_chat_only_params (id : Z) :
  id <> 0%Z ->
  MessageConfig.params (message_to id) =
    (list_to_map
       [ ("chat_id", Itoa id);
         ("disable_notification", "false");
         ("allow_sending_without_reply", "false");
         ("protect_content", "false");
         ("disable_web_page_preview", "false");
         ("allow_paid_broadcast", "false") ],
     None) /\
  named_file_parts (OfMessageConfig (message_to id)) = Returns [].
Proof.
  intros Hid. split; [| reflexivity].
  unfold MessageConfig.params, BaseChat.params, message_to, chat_target,
    AddFirstValid, AddNonZero, AddNonZero64, AddNonEmpty, AddBool,
    AddInterface; simpl.
  destruct (decide (id = 0%Z)) as [Heq | _]; [contradiction |].
  reflexivity.
Qed.

Lemma MessageConfig_chat_only_params_42 :
  42%Z <> 0%Z /\
  MessageConfig.params (message_to 42) =
    (list_to_map
       [ ("chat_id", "42");
         ("disable_notification", "false");
         ("allow_sending_without_reply", "false");
         ("protect_content", "false");
         ("disable_web_page_preview", "false");
         ("allow_paid_broadcast", "false") ],
     None) /\
  named_file_parts (OfMessageConfig (message_to 42)) = Returns [].
Proof.
  split; [lia |]. apply (MessageConfig_chat_only_params 42). lia.
Defined.

(** C4 as stated fails: the mapping built for chat target 42 is not the
    one-key mapping, it also holds the key "disable_notification". *)
Lemma MessageConfig_params_42_has_other_keys :
  ~ (MessageConfig.params (message_to 42) = ({[ "chat_id" := "42" ]}, None) /\
     named_file_parts (OfMessageConfig (message_to 42)) = Returns []).
Proof.
  intros [Hparams _].
  apply (f_equal (fun r => r.1 !! "disable_notification")) in Hparams.
  vm_compute in Hparams. discriminate Hparams.
Qed.

(** The file parts of a sendPhoto request: the primary file, then the
    thumbnail when there is one. *)
Lemma PhotoConfig_files_with_thumb (config : PhotoConfig.t) (t : RequestFileData) :
  PhotoConfig.Thumb config = Some t ->
  PhotoConfig.files config =
    [ RequestFile.mk "photo" (BaseFile.File (PhotoConfig.BaseFile config));
      RequestFile.mk "thumb" (Some t) ].
Proof. intros Ht. unfold PhotoConfig.files. rewrite Ht. reflexivity. Qed.

(** C3 (amended). The file parts of a sendPhoto request are a part "photo"
    wrapping the primary file, whether or not it requires upload, and after
    it a part "thumb" wrapping the thumbnail exactly when one is set: one
    part without a thumbnail, two with one.  In particular, with a remote
    URL as primary file and a local path as thumbnail there are two parts,
    and the thumbnail's is the only one that requires upload. *)
Theorem PhotoConfig_files_lists_every_file (config : PhotoConfig.t) :
  PhotoConfig.files config =
    RequestFile.mk "photo" (BaseFile.File (PhotoConfig.BaseFile config)) ::
    match PhotoConfig.Thumb config with
    | Some thumb => [RequestFile.mk "thumb" (Some thumb)]
    | None => []
    end /\
  forall url path : string,
    BaseFile.File (PhotoConfig.BaseFile config) = Some (FileURL url) ->
    PhotoConfig.Thumb config = Some (FilePath path) ->
    PhotoConfig.files config =
      [ RequestFile.mk "photo" (Some (FileURL url));
        RequestFile.mk "thumb" (Some (FilePath path)) ] /\
    filter (fun part => part_requires_upload part = true)
           (PhotoConfig.files config) =
      [ RequestFile.mk "thumb" (Some (FilePath path)) ].
Proof.
  split.
  - unfold PhotoConfig.files.
    destruct (PhotoConfig.Thumb config) as [thumb |]; reflexivity.
  - intros url path Hfile Hthumb.
    rewrite (PhotoConfig_files_with_thumb config _ Hthumb), Hfile.
    split; reflexivity.
Qed.

Lemma PhotoConfig_files_lists_every_file_example :
  BaseFile.File (PhotoConfig.BaseFile photo_by_url_local_thumb)
    = Some (FileURL "https://example.com/image.jpg") /\
  PhotoConfig.Thumb photo_by_url_local_thumb
    = Some (FilePath "./tests/image.jpg") /\
  PhotoConfig.files photo_by_url_local_thumb =
    [ RequestFile.mk "photo" (Some (FileURL "https://example.com/image.jpg"));
      RequestFile.mk "thumb" (Some (FilePath "./tests/image.jpg")) ] /\
  filter (fun part => part_requires_upload part = true)
         (PhotoConfig.files photo_by_url_local_thumb) =
    [ RequestFile.mk "thumb" (Some (FilePath "./tests/image.jpg")) ].
Proof.
  split; [reflexivity |]. split; [reflexivity |].
  apply (proj2 (PhotoConfig_files_lists_every_file photo_by_url_local_thumb));
    reflexivity.
Defined.

(** C3 as stated fails: with a remote URL as primary file and a local path
    as thumbnail the request lists two file parts, not one, and the first
    wraps a reference that does not require upload. *)
Lemma PhotoConfig_files_lists_url_part :
  ~ (forall part, part ∈ PhotoConfig.files photo_by_url_local_thumb ->
       part_requires_upload part = true) /\
  length (PhotoConfig.files photo_by_url_local_thumb) <> 1.
Proof.
  split.
  - intros Hall.
    specialize (Hall (RequestFile.mk "photo"
                        (Some (FileURL "https://example.com/image.jpg")))).
    assert (Hin : RequestFile.mk "photo"
                    (Some (FileURL "https://example.com/image.jpg"))
                  ∈ PhotoConfig.files photo_by_url_local_thumb)
      by (apply list_elem_of_here).
    specialize (Hall Hin). discriminate Hall.
  - vm_compute. discriminate.
Qed.

End Configs.

(** * Media-group rewriting on the elements *)

Section MediaGroup.

Implicit Types (x y : Interface) (l rest : list Interface) (i idx : nat).

Lemma append_empty_r (s : string) : s +:+ EmptyString = s.
Proof.
  induction s as [| c s IH]; [reflexivity |].
  change (String c (s +:+ EmptyString) = String c s). by rewrite IH.
Qed.

Lemma Sprintf_file (d : Z) : Sprintf "file-%d" d = "file-" +:+ Itoa d.
Proof. simpl. rewrite append_empty_r. reflexivity. Qed.

Lemma Sprintf_attach (d : Z) :
  Sprintf "attach://file-%d" d = "attach://file-" +:+ Itoa d.
Proof. simpl. rewrite append_empty_r. reflexivity. Qed.

Lemma Sprintf_attach_thumb (d : Z) :
  Sprintf "attach://file-%d-thumb" d = "attach://file-" +:+ Itoa d +:+ "-thumb".
Proof. reflexivity. Qed.

(** Where the primary reference is present, the per-item functions
    return. *)
Lemma prepareInputMediaParam_returns x (d : Z) :
  media_present x -> returns (prepareInputMediaParam x d).
Proof.
  unfold media_present, returns.
  destruct x as [| m | m | m | m | m | t]; simpl; intros Hm; eauto;
    destruct (Hm eq_refl) as [f Hf]; rewrite Hf; simpl; eauto.
Qed.

Lemma prepareInputMediaFile_returns x (d : Z) :
  media_present x -> returns (prepareInputMediaFile x d).
Proof.
  unfold media_present, returns.
  destruct x as [| m | m | m | m | m | t]; simpl; intros Hm; eauto;
    destruct (Hm eq_refl) as [f Hf]; rewrite Hf; simpl; eauto.
Qed.

Lemma prepareInputMediaParam_rewritten x i :
  media_present x ->
  exists param,
    prepareInputMediaParam x (Z.of_nat i) = Returns param /\
    match param with Nil => x | _ => param end = rewritten i x.
Proof.
  intros Hx. destruct (prepareInputMediaParam_returns x (Z.of_nat i) Hx)
    as [param Hparam].
  exists param. split; [exact Hparam |].
  unfold rewritten. rewrite Hparam. by destruct param.
Qed.

Lemma prepareInputMediaFile_parts_of x i :
  media_present x ->
  prepareInputMediaFile x (Z.of_nat i) = Returns (parts_of i x).
Proof.
  intros Hx. destruct (prepareInputMediaFile_returns x (Z.of_nat i) Hx)
    as [file Hfile].
  unfold parts_of. by rewrite Hfile.
Qed.

(** [make] then [copy] gives the elements of the source. *)
Lemma copy_make {A} (nil : A) (src : list A) :
  copy (replicate (length src) nil) src = src.
Proof.
  unfold copy. rewrite length_replicate, firstn_all.
  rewrite drop_ge by (by rewrite length_replicate).
  apply app_nil_r.
Qed.

(** The loop of [prepareInputMediaForParams], started at [idx] with the
    elements before [idx] done and those from [idx] on still the copies. *)
Lemma prepareInputMediaForParams_loop_spec rest :
  forall idx (done_ : list Interface),
    Forall media_present rest ->
    length done_ = idx ->
    prepareInputMediaForParams_loop idx rest (done_ ++ rest) =
      Returns (done_ ++ imap (fun j => rewritten (idx + j)) rest).
Proof.
  induction rest as [| x rest IH]; intros idx done_ Hall Hlen; simpl.
  - reflexivity.
  - apply Forall_cons in Hall as [Hx Hrest].
    destruct (prepareInputMediaParam_rewritten x idx Hx)
      as (param & -> & Hparam). simpl.
    assert (Hstep :
      match param with
      | Nil => done_ ++ x :: rest
      | _ => <[idx := param]> (done_ ++ x :: rest)
      end = (done_ ++ [rewritten idx x]) ++ rest).
    { rewrite <- Hparam, <- app_assoc. simpl.
      destruct param; try reflexivity;
        (rewrite <- Hlen, <- (Nat.add_0_r (length done_)), insert_app_r;
         reflexivity). }
    rewrite Hstep, (IH (S idx)); [| exact Hrest | rewrite length_app; simpl; lia].
    rewrite <- app_assoc. simpl. rewrite Nat.add_0_r.
    do 3 f_equal. apply imap_ext. intros j z _. simpl. f_equal. lia.
Qed.

(** The loop writes in place: it keeps the length of [newMedia]. *)
Lemma prepareInputMediaForParams_loop_length rest :
  forall idx (cur out : list Interface),
    prepareInputMediaForParams_loop idx rest cur = Returns out ->
    length out = length cur.
Proof.
  induction rest as [| x rest IH]; intros idx cur out Hout; simpl in Hout.
  - by injection Hout as <-.
  - destruct (prepareInputMediaParam x (Z.of_nat idx)) as [param | why];
      [| discriminate Hout].
    simpl in Hout. apply IH in Hout. rewrite Hout.
    destruct param; rewrite ?length_insert; reflexivity.
Qed.

Lemma prepareInputMediaForParams_spec l :
  Forall media_present l ->
  prepareInputMediaForParams l = Returns (imap rewritten l).
Proof.
  intros Hall. unfold prepareInputMediaForParams. rewrite copy_make.
  apply (prepareInputMediaForParams_loop_spec l 0 [] Hall eq_refl).
Qed.

(** The loop of [prepareInputMediaForFiles]: the files of each element
    are appended in order. *)
Lemma prepareInputMediaForFiles_loop_spec rest :
  forall idx (files : list RequestFile.t),
    Forall media_present rest ->
    prepareInputMediaForFiles_loop idx rest files =
      Returns (files ++ concat (imap (fun j => parts_of (idx + j)) rest)).
Proof.
  induction rest as [| x rest IH]; intros idx files Hall; simpl.
  - by rewrite app_nil_r.
  - apply Forall_cons in Hall as [Hx Hrest].
    rewrite (prepareInputMediaFile_parts_of x idx Hx). simpl.
    rewrite (IH (S idx) _ Hrest), <- app_assoc, Nat.add_0_r.
    do 4 f_equal. apply imap_ext. intros j z _. simpl. f_equal. lia.
Qed.

Lemma prepareInputMediaForFiles_spec l :
  Forall media_present l ->
  prepareInputMediaForFiles l = Returns (concat (imap parts_of l)).
Proof.
  intros Hall. unfold prepareInputMediaForFiles.
  by rewrite (prepareInputMediaForFiles_loop_spec l 0 [] Hall).
Qed.

Lemma InputMediaItem_media_present x : InputMediaItem x -> media_present x.
Proof. intros [_ Hm] _. exact Hm. Qed.

Local Ltac item_cases x :=
  destruct x as [| [[ty med cap pm ents]] | [[ty med cap pm ents] th w hgt dur ss]
                 | m | [[ty med cap pm ents] th dur perf ttl]
                 | [[ty med cap pm ents] th dct] | dyn].

(** What the loop leaves at the position of a handled item that carries
    its primary reference. *)
Lemma rewritten_item x i (f : RequestFileData) :
  supported x = true ->
  item_media x = Some f ->
  item_media (rewritten i x)
    = Some (placeholder ("attach://file-" +:+ Itoa (Z.of_nat i)) f) /\
  item_thumb (rewritten i x)
    = placeholder ("attach://file-" +:+ Itoa (Z.of_nat i) +:+ "-thumb")
        <$> item_thumb x /\
  other_fields (rewritten i x) = other_fields x.
Proof.
  intros Hsup Hmed. unfold rewritten, prepareInputMediaParam.
  rewrite <- Sprintf_attach, <- Sprintf_attach_thumb.
  generalize (Sprintf "attach://file-%d" (Z.of_nat i))
             (Sprintf "attach://file-%d-thumb" (Z.of_nat i)).
  intros tok tok_thumb. unfold placeholder.
  item_cases x; try discriminate Hsup; cbv in Hmed; subst med; simpl;
    destruct (NeedsUpload f) eqn:Hup; simpl; rewrite ?Hup;
    try (destruct th as [t |]; simpl; [destruct (NeedsUpload t) eqn:Ht |]);
    simpl; rewrite ?Hup, ?Ht; auto.
Qed.

(** The files appended for a handled item that carries its primary
    reference: both are named by the position alone. *)
Lemma parts_of_item x i (f : RequestFileData) :
  supported x = true ->
  item_media x = Some f ->
  parts_of i x =
    (if NeedsUpload f
     then [RequestFile.mk ("file-" +:+ Itoa (Z.of_nat i)) (Some f)] else []) ++
    match item_thumb x with
    | Some t =>
        if NeedsUpload t
        then [RequestFile.mk ("file-" +:+ Itoa (Z.of_nat i)) (Some t)] else []
    | None => []
    end.
Proof.
  intros Hsup Hmed. unfold parts_of, prepareInputMediaFile.
  rewrite <- Sprintf_file. generalize (Sprintf "file-%d" (Z.of_nat i)).
  intros name_.
  item_cases x; try discriminate Hsup; cbv in Hmed; subst med; simpl;
    destruct (NeedsUpload f); simpl;
    try (destruct th as [t |]; simpl; [destruct (NeedsUpload t) |]);
    reflexivity.
Qed.

Lemma parts_of_unsupported x i : supported x = false -> parts_of i x = [].
Proof. by item_cases x. Qed.

Lemma rewritten_unsupported x i : supported x = false -> rewritten i x = x.
Proof. by item_cases x. Qed.

Lemma parts_of_no_upload x i :
  media_present x -> no_upload x -> parts_of i x = [].
Proof.
  intros Hm [Hmedia Hthumb].
  destruct (supported x) eqn:Hsup; [| by apply parts_of_unsupported].
  destruct (Hm Hsup) as [f Hf].
  rewrite (parts_of_item x i f Hsup Hf), (Hmedia f Hf).
  destruct (item_thumb x) as [t |]; [| reflexivity].
  by rewrite (Hthumb t eq_refl).
Qed.

(** The two references and [other_fields] make up the whole item. *)
Lemma item_determined x y :
  other_fields y = other_fields x ->
  item_media y = item_media x ->
  item_thumb y = item_thumb x ->
  y = x.
Proof.
  intros Hother Hmedia Hthumb.
  item_cases x; destruct y as [| [[]] | [[]] | | [[]] | [[]] |];
    try discriminate Hother; try exact Hother;
    cbv in Hother, Hmedia, Hthumb; congruence.
Qed.

(** Where no thumbnail requires upload, the files appended for an item are
    the parts described for it. *)
Lemma parts_of_spec_without_thumb_upload x i :
  media_present x ->
  (forall t, item_thumb x = Some t -> NeedsUpload t = false) ->
  parts_of i x = file_parts_spec i x.
Proof.
  intros Hm Hthumb. unfold file_parts_spec.
  destruct (supported x) eqn:Hsup.
  - destruct (Hm Hsup) as [f Hf]. rewrite (parts_of_item x i f Hsup Hf), Hf.
    destruct (item_thumb x) as [t |]; [| reflexivity].
    by rewrite (Hthumb t eq_refl).
  - rewrite (parts_of_unsupported x i Hsup). by item_cases x.
Qed.

(** C6. For every list of Input Media Items, [prepareInputMediaForParams]
    returns a list of the same length in which the item at position [i]
    has its media reference replaced by the placeholder attach://file-<i>
    exactly when that reference requires upload, its thumbnail replaced by
    attach://file-<i>-thumb exactly when a thumbnail is present and
    requires upload, and every other field as in the input. *)
Theorem prepareInputMediaForParams_placeholders l :
  Forall InputMediaItem l ->
  exists out,
    prepareInputMediaForParams l = Returns out /\
    length out = length l /\
    forall i x f,
      l !! i = Some x ->
      item_media x = Some f ->
      exists y,
        out !! i = Some y /\
        item_media y
          = Some (placeholder ("attach://file-" +:+ Itoa (Z.of_nat i)) f) /\
        item_thumb y
          = placeholder ("attach://file-" +:+ Itoa (Z.of_nat i) +:+ "-thumb")
              <$> item_thumb x /\
        other_fields y = other_fields x.
Proof.
  intros Hall. exists (imap rewritten l). split; [| split].
  - apply prepareInputMediaForParams_spec.
    eapply Forall_impl; [exact Hall | apply InputMediaItem_media_present].
  - apply length_imap.
  - intros i x f Hi Hf. exists (rewritten i x). split.
    + by rewrite list_lookup_imap, Hi.
    + apply rewritten_item; [| exact Hf].
      rewrite Forall_forall in Hall. apply (Hall x).
      apply list_elem_of_lookup. by exists i.
Qed.

Lemma prepareInputMediaForParams_placeholders_example :
  Forall InputMediaItem example_group /\
  exists out,
    prepareInputMediaForParams example_group = Returns out /\
    length out = length example_group /\
    forall i x f,
      example_group !! i = Some x ->
      item_media x = Some f ->
      exists y,
        out !! i = Some y /\
        item_media y
          = Some (placeholder ("attach://file-" +:+ Itoa (Z.of_nat i)) f) /\
        item_thumb y
          = placeholder ("attach://file-" +:+ Itoa (Z.of_nat i) +:+ "-thumb")
              <$> item_thumb x /\
        other_fields y = other_fields x.
Proof.
  assert (Hitems : Forall InputMediaItem example_group).
  { repeat constructor; simpl; eauto. }
  split; [exact Hitems |].
  apply (prepareInputMediaForParams_placeholders example_group Hitems).
Defined.

(** C7. For every list of media-group elements in which the handled items
    carry their primary reference and no media or thumbnail reference
    requires upload, [prepareInputMediaForFiles] returns no file part. *)
Theorem prepareInputMediaForFiles_nothing_to_upload l :
  Forall media_present l ->
  Forall no_upload l ->
  prepareInputMediaForFiles l = Returns [].
Proof.
  intros Hpresent Hnone.
  rewrite (prepareInputMediaForFiles_spec l Hpresent). f_equal.
  assert (Hparts : forall i x, l !! i = Some x -> parts_of i x = []).
  { intros i x Hi. apply parts_of_no_upload.
    - rewrite Forall_forall in Hpresent. apply Hpresent.
      apply list_elem_of_lookup. by exists i.
    - rewrite Forall_forall in Hnone. apply Hnone.
      apply list_elem_of_lookup. by exists i. }
  clear Hpresent Hnone. revert Hparts. generalize parts_of as parts.
  induction l as [| x l IH]; intros parts Hparts; [reflexivity |].
  rewrite imap_cons. simpl. rewrite (Hparts 0 x eq_refl). simpl.
  apply IH. intros i y Hi. apply (Hparts (S i) y Hi).
Qed.

Lemma prepareInputMediaForFiles_nothing_to_upload_example :
  Forall media_present remote_group /\
  Forall no_upload remote_group /\
  prepareInputMediaForFiles remote_group = Returns [].
Proof.
  assert (Hpresent : Forall media_present remote_group).
  { repeat constructor; intros _; simpl; eauto. }
  assert (Hnone : Forall no_upload remote_group).
  { repeat constructor; simpl; intros f Hf; inversion Hf; reflexivity. }
  split; [exact Hpresent |]. split; [exact Hnone |].
  apply (prepareInputMediaForFiles_nothing_to_upload remote_group Hpresent Hnone).
Defined.

(** C9. An element whose variant is not photo, video, audio or document
    makes neither per-item function fail: no parameter and no file come
    back for it.  In a group whose other elements carry their primary
    references, both rewriter outputs are returned, the element stands
    unchanged at its position in the rewritten list, and the file parts
    are those of the elements before it followed by those of the elements
    after it. *)
Theorem unsupported_variant_passes_through x :
  supported x = false ->
  (forall d : Z,
     prepareInputMediaParam x d = Returns Nil /\
     prepareInputMediaFile x d = Returns []) /\
  (forall before after : list Interface,
     Forall media_present before ->
     Forall media_present after ->
     exists out,
       prepareInputMediaForParams (before ++ x :: after) = Returns out /\
       out !! length before = Some x /\
       prepareInputMediaForFiles (before ++ x :: after) =
         Returns (concat (imap parts_of before) ++
                  concat (imap (fun j => parts_of (S (length before) + j)) after))).
Proof.
  intros Hsup. split.
  - intros d. by item_cases x.
  - intros before after Hbefore Hafter.
    assert (Hx : media_present x).
    { intros Hsup'. rewrite Hsup in Hsup'. discriminate Hsup'. }
    assert (Hall : Forall media_present (before ++ x :: after)).
    { apply Forall_app. split; [exact Hbefore |]. by apply Forall_cons. }
    exists (imap rewritten (before ++ x :: after)). split; [| split].
    + by apply prepareInputMediaForParams_spec.
    + rewrite list_lookup_imap, list_lookup_middle by reflexivity. simpl.
      by rewrite rewritten_unsupported.
    + rewrite (prepareInputMediaForFiles_spec _ Hall), imap_app, concat_app.
      rewrite imap_cons, Nat.add_0_r. simpl.
      rewrite (parts_of_unsupported x (length before) Hsup). simpl.
      do 3 f_equal. apply imap_ext. intros j z _. simpl. f_equal. lia.
Qed.

Lemma unsupported_variant_passes_through_animation :
  supported local_animation = false /\
  (forall d : Z,
     prepareInputMediaParam local_animation d = Returns Nil /\
     prepareInputMediaFile local_animation d = Returns []) /\
  (forall before after : list Interface,
     Forall media_present before ->
     Forall media_present after ->
     exists out,
       prepareInputMediaForParams (before ++ local_animation :: after)
         = Returns out /\
       out !! length before = Some local_animation /\
       prepareInputMediaForFiles (before ++ local_animation :: after) =
         Returns (concat (imap parts_of before) ++
                  concat (imap (fun j => parts_of (S (length before) + j)) after))).
Proof.
  split; [reflexivity |].
  apply (unsupported_variant_passes_through local_animation). reflexivity.
Defined.

(** C1. On a video with a local file and a local thumbnail,
    [prepareInputMediaForFiles] names both file parts "file-0", where the
    parts described for the item are "file-0" and "file-0-thumb"; the
    placeholder that [prepareInputMediaForParams] writes for the thumbnail
    is attach://file-0-thumb, a name no file part carries. *)
Theorem prepareInputMediaForFiles_thumb_part_name :
  prepareInputMediaForFiles [video_with_local_thumb] =
    Returns [ RequestFile.mk "file-0" (Some (FilePath "./tests/video.mp4"));
              RequestFile.mk "file-0" (Some (FilePath "./tests/image.jpg")) ] /\
  concat (imap file_parts_spec [video_with_local_thumb]) =
    [ RequestFile.mk "file-0" (Some (FilePath "./tests/video.mp4"));
      RequestFile.mk "file-0-thumb" (Some (FilePath "./tests/image.jpg")) ] /\
  prepareInputMediaForFiles [video_with_local_thumb] <>
    Returns (concat (imap file_parts_spec [video_with_local_thumb])) /\
  prepareInputMediaForParams [video_with_local_thumb] =
    Returns [ video_item (Some (fileAttach "attach://file-0"))
                         (Some (fileAttach "attach://file-0-thumb")) ].
Proof.
  split; [reflexivity |]. split; [reflexivity |]. split; [| reflexivity].
  intros Heq. vm_compute in Heq. discriminate Heq.
Qed.

End MediaGroup.

(** * Media-group rewriting on slices of a store *)

Section Slices.

Local Notation "x <- m ;; k" := (Heap.bind m (fun x => k))
  (at level 100, m at next level, right associativity).

Implicit Types (h : gmap nat (list Interface)) (s : Heap.slice)
  (l rest cur : list Interface).

Lemma elements_length s h l :
  Heap.elements s h = Some l -> length l = Heap.len s.
Proof.
  unfold Heap.elements.
  destruct (h !! Heap.array s) as [arr |]; [| discriminate].
  case_decide; [| discriminate]. intros [= <-].
  rewrite length_take, length_drop. lia.
Qed.

Lemma elements_insert_ne s h l (a : nat) cur :
  Heap.array s <> a ->
  Heap.elements s h = Some l ->
  Heap.elements s (<[a := cur]> h) = Some l.
Proof. intros Hne. unfold Heap.elements. by rewrite lookup_insert_ne. Qed.

Lemma elements_whole (a : nat) h cur :
  h !! a = Some cur -> Heap.elements (Heap.mk_slice a 0 (length cur)) h = Some cur.
Proof.
  intros Ha. unfold Heap.elements. simpl. rewrite Ha.
  rewrite decide_True by lia. by rewrite drop_0, firstn_all.
Qed.

(** Reading the element at [idx] of a slice whose remaining elements from
    [idx] on are [x :: rest]. *)
Lemma index_drop s h l (idx : nat) (x : Interface) rest :
  Heap.elements s h = Some l ->
  drop idx l = x :: rest ->
  Heap.index s idx h = Returns (x, h).
Proof.
  intros Hl Hdrop. unfold Heap.index.
  assert (Hx : l !! idx = Some x).
  { pose proof (lookup_drop l idx 0) as Hhead.
    rewrite Hdrop, Nat.add_0_r in Hhead. by symmetry. }
  apply lookup_lt_Some in Hx as Hlt.
  rewrite (elements_length s h l Hl) in Hlt.
  rewrite decide_True by exact Hlt. by rewrite Hl, Hx.
Qed.

Lemma drop_S_tail l (idx : nat) (x : Interface) rest :
  drop idx l = x :: rest -> drop (S idx) l = rest.
Proof.
  intros Hdrop. rewrite <- (Nat.add_1_r idx), <- drop_drop, Hdrop.
  reflexivity.
Qed.

(** The loop of [prepareInputMediaForFiles] on a slice reads the store and
    leaves it as it is. *)
Lemma range_files s h l rest :
  forall (idx : nat) (files : list RequestFile.t),
    Heap.elements s h = Some l ->
    drop idx l = rest ->
    Heap.range s
      (fun idx media files =>
         file <- Heap.lift (prepareInputMediaFile media (Z.of_nat idx)) ;;
         Heap.ret (files ++ file))
      idx (length rest) files h =
    match prepareInputMediaForFiles_loop idx rest files with
    | Returns files => Returns (files, h)
    | Panics why => Panics why
    end.
Proof.
  induction rest as [| x rest IH]; intros idx files Hl Hdrop; simpl.
  - reflexivity.
  - unfold Heap.bind at 1. rewrite (index_drop s h l idx x rest Hl Hdrop).
    unfold Heap.bind at 1, Heap.bind at 1, Heap.lift.
    destruct (prepareInputMediaFile x (Z.of_nat idx)) as [file | why]; simpl.
    + apply IH; [exact Hl | by eapply drop_S_tail].
    + reflexivity.
Qed.

Lemma prepareInputMediaForFiles_on_store s h l :
  Heap.elements s h = Some l ->
  Heap.prepareInputMediaForFiles s h =
    match prepareInputMediaForFiles l with
    | Returns files => Returns (files, h)
    | Panics why => Panics why
    end.
Proof.
  intros Hl. unfold Heap.prepareInputMediaForFiles.
  rewrite <- (elements_length s h l Hl).
  apply (range_files s h l l 0 [] Hl). apply drop_0.
Qed.

(** The loop of [prepareInputMediaForParams] on a slice writes to the
    array of [newMedia] only, which is not the array it ranges over. *)
Lemma range_params s l (a : nat) rest :
  forall (idx : nat) h cur,
    Heap.elements s h = Some l ->
    drop idx l = rest ->
    Heap.array s <> a ->
    h !! a = Some cur ->
    length cur = Heap.len s ->
    Heap.range s
      (fun idx media _ =>
         param <- Heap.lift (prepareInputMediaParam media (Z.of_nat idx)) ;;
         match param with
         | Nil => Heap.ret tt
         | _ => Heap.assign (Heap.mk_slice a 0 (Heap.len s)) idx param
         end)
      idx (length rest) tt h =
    match prepareInputMediaForParams_loop idx rest cur with
    | Returns out => Returns (tt, <[a := out]> h)
    | Panics why => Panics why
    end.
Proof.
  induction rest as [| x rest IH]; intros idx h cur Hl Hdrop Hne Hcur Hlen; simpl.
  - unfold Heap.ret. by rewrite insert_id.
  - unfold Heap.bind at 1. rewrite (index_drop s h l idx x rest Hl Hdrop).
    unfold Heap.bind at 1, Heap.bind at 1, Heap.lift.
    assert (Hidx : idx < Heap.len s).
    { rewrite <- (elements_length s h l Hl).
      apply Nat.nle_gt. intros Hge. rewrite drop_ge in Hdrop by exact Hge.
      discriminate Hdrop. }
    pose proof (drop_S_tail l idx x rest Hdrop) as Hdrop'.
    destruct (prepareInputMediaParam x (Z.of_nat idx)) as [param | why]; simpl;
      [| reflexivity].
    destruct param;
      try (unfold Heap.assign; simpl;
           rewrite decide_True by exact Hidx; rewrite Hcur;
           rewrite decide_True by lia;
           erewrite (IH (S idx));
           [ | by apply elements_insert_ne | exact Hdrop' | exact Hne
             | by apply lookup_insert_eq | by rewrite length_insert ];
           match goal with
           | |- context [prepareInputMediaForParams_loop ?i ?r ?c] =>
               destruct (prepareInputMediaForParams_loop i r c); [| reflexivity]
           end;
           by rewrite insert_insert_eq).
    unfold Heap.ret. by apply IH.
Qed.

Lemma prepareInputMediaForParams_on_store s h l :
  Heap.elements s h = Some l ->
  Heap.prepareInputMediaForParams s h =
    match prepareInputMediaForParams l with
    | Returns out =>
        Returns (Heap.mk_slice (fresh (dom h)) 0 (Heap.len s),
                 <[fresh (dom h) := out]> h)
    | Panics why => Panics why
    end.
Proof.
  intros Hl. pose proof (elements_length s h l Hl) as Hlen.
  set (a := fresh (dom h)).
  assert (Ha : h !! a = None) by (apply not_elem_of_dom, is_fresh).
  assert (Hne : Heap.array s <> a).
  { intros Heq. unfold Heap.elements in Hl. rewrite Heq, Ha in Hl.
    discriminate Hl. }
  unfold Heap.prepareInputMediaForParams, Heap.bind at 1, Heap.make.
  fold a. unfold Heap.bind at 1, Heap.copy. simpl.
  set (nils := replicate (Heap.len s) Nil).
  assert (Hnils : Heap.elements (Heap.mk_slice a 0 (Heap.len s))
                    (<[a := nils]> h) = Some nils).
  { unfold nils. rewrite <- (length_replicate (Heap.len s) Nil) at 1.
    apply elements_whole, lookup_insert_eq. }
  rewrite Hnils, (elements_insert_ne s h l a nils Hne Hl), lookup_insert_eq.
  rewrite insert_insert_eq. simpl.
  rewrite (drop_ge nils) by (unfold nils; by rewrite length_replicate).
  rewrite app_nil_r.
  assert (Hcopy : copy nils l = l).
  { unfold nils. rewrite <- Hlen. apply copy_make. }
  assert (Hrange := range_params s l a l 0 (<[a := copy nils l]> h)
    (copy nils l) (elements_insert_ne s h l a _ Hne Hl) (drop_0 l) Hne
    (lookup_insert_eq _ _ _)
    (eq_trans (f_equal length Hcopy) Hlen)).
  rewrite Hlen in Hrange. unfold Heap.bind at 1. rewrite Hrange.
  unfold prepareInputMediaForParams. rewrite Hlen. fold nils.
  destruct (prepareInputMediaForParams_loop 0 l (copy nils l)); [| reflexivity].
  unfold Heap.ret. by rewrite insert_insert_eq.
Qed.

(** C8. Running both rewriter outputs on a slice of the caller leaves
    every array of the caller as it was, so the slice still shows the
    original elements; the rewritten sequence is a slice on an array that
    was not in use before.  The run returns whenever the handled items
    carry their primary reference. *)
Theorem rewriter_leaves_input_unchanged s h l :
  Heap.elements s h = Some l ->
  (Forall media_present l -> exists r h', run_rewriter s h = Returns (r, h')) /\
  (forall newMedia files h',
     run_rewriter s h = Returns ((newMedia, files), h') ->
     (forall (a : nat) arr, h !! a = Some arr -> h' !! a = Some arr) /\
     Heap.elements s h' = Some l /\
     h !! Heap.array newMedia = None /\
     exists out,
       prepareInputMediaForParams l = Returns out /\
       Heap.elements newMedia h' = Some out /\
       prepareInputMediaForFiles l = Returns files).
Proof.
  intros Hl. pose proof (elements_length s h l Hl) as Hlen.
  set (a := fresh (dom h)).
  assert (Ha : h !! a = None) by (apply not_elem_of_dom, is_fresh).
  assert (Hne : Heap.array s <> a).
  { intros Heq. unfold Heap.elements in Hl. rewrite Heq, Ha in Hl.
    discriminate Hl. }
  assert (Hrun : run_rewriter s h =
    match prepareInputMediaForParams l, prepareInputMediaForFiles l with
    | Returns out, Returns files =>
        Returns ((Heap.mk_slice a 0 (Heap.len s), files), <[a := out]> h)
    | Panics why, _ => Panics why
    | _, Panics why => Panics why
    end).
  { unfold run_rewriter, Heap.bind at 1.
    rewrite (prepareInputMediaForParams_on_store s h l Hl). fold a.
    destruct (prepareInputMediaForParams l) as [out | why]; [| reflexivity].
    unfold Heap.bind at 1.
    rewrite (prepareInputMediaForFiles_on_store s _ l
               (elements_insert_ne s h l a out Hne Hl)).
    by destruct (prepareInputMediaForFiles l). }
  rewrite Hrun. split.
  - intros Hall.
    rewrite (prepareInputMediaForParams_spec l Hall),
            (prepareInputMediaForFiles_spec l Hall). eauto.
  - intros newMedia files h' Hret.
    destruct (prepareInputMediaForParams l) as [out | why] eqn:Hout;
      [| discriminate Hret].
    destruct (prepareInputMediaForFiles l) as [files' | why] eqn:Hfiles;
      [| discriminate Hret].
    injection Hret as <- <- <-. simpl. repeat split.
    + intros b arr Hb. rewrite lookup_insert_ne; [exact Hb |].
      intros <-. rewrite Ha in Hb. discriminate Hb.
    + by apply elements_insert_ne.
    + exact Ha.
    + exists out. repeat split.
      assert (Hlen_out : length out = Heap.len s).
      { rewrite <- Hlen. unfold prepareInputMediaForParams in Hout.
        apply prepareInputMediaForParams_loop_length in Hout.
        by rewrite copy_make in Hout. }
      rewrite <- Hlen_out. apply elements_whole, lookup_insert_eq.
Qed.

Lemma rewriter_leaves_input_unchanged_example :
  Heap.elements caller_slice caller_store = Some caller_elements /\
  (Forall media_present caller_elements ->
   exists r h', run_rewriter caller_slice caller_store = Returns (r, h')) /\
  (forall newMedia files h',
     run_rewriter caller_slice caller_store = Returns ((newMedia, files), h') ->
     (forall (a : nat) arr,
        caller_store !! a = Some arr -> h' !! a = Some arr) /\
     Heap.elements caller_slice h' = Some caller_elements /\
     caller_store !! Heap.array newMedia = None /\
     exists out,
       prepareInputMediaForParams caller_elements = Returns out /\
       Heap.elements newMedia h' = Some out /\
       prepareInputMediaForFiles caller_elements = Returns files).
Proof.
  split; [reflexivity |].
  apply (rewriter_leaves_input_unchanged caller_slice caller_store
           caller_elements).
  reflexivity.
Defined.

End Slices.

(** * More on media-group rewriting *)

Section RewriterProperties.

Implicit Types (x y : Interface) (l rest out : list Interface) (i idx : nat).

Local Ltac item_cases x :=
  destruct x as [| [[ty med cap pm ents]] | [[ty med cap pm ents] th w hgt dur ss]
                 | m | [[ty med cap pm ents] th dur perf ttl]
                 | [[ty med cap pm ents] th dct] | dyn].

(** A handled item without its primary reference makes the per-item
    functions panic. *)
Lemma prepareInputMediaParam_returns_inv x (d : Z) :
  returns (prepareInputMediaParam x d) -> media_present x.
Proof.
  intros [y Hy] Hsup.
  item_cases x; try discriminate Hsup; destruct med as [f |];
    simpl; eauto; discriminate Hy.
Qed.

Lemma prepareInputMediaFile_returns_inv x (d : Z) :
  returns (prepareInputMediaFile x d) -> media_present x.
Proof.
  intros [y Hy] Hsup.
  item_cases x; try discriminate Hsup; destruct med as [f |];
    simpl; eauto; discriminate Hy.
Qed.

Lemma prepareInputMediaForParams_loop_returns_inv rest :
  forall idx (cur : list Interface),
    returns (prepareInputMediaForParams_loop idx rest cur) ->
    Forall media_present rest.
Proof.
  induction rest as [| x rest IH]; intros idx cur Hret; [constructor |].
  simpl in Hret.
  destruct (prepareInputMediaParam x (Z.of_nat idx)) as [param | why] eqn:Hx.
  - constructor.
    + apply (prepareInputMediaParam_returns_inv x (Z.of_nat idx)).
      rewrite Hx. by exists param.
    + eapply IH. exact Hret.
  - destruct Hret as [? Hret]. discriminate Hret.
Qed.

Lemma prepareInputMediaForFiles_loop_returns_inv rest :
  forall idx (files : list RequestFile.t),
    returns (prepareInputMediaForFiles_loop idx rest files) ->
    Forall media_present rest.
Proof.
  induction rest as [| x rest IH]; intros idx files Hret; [constructor |].
  simpl in Hret.
  destruct (prepareInputMediaFile x (Z.of_nat idx)) as [file | why] eqn:Hx.
  - constructor.
    + apply (prepareInputMediaFile_returns_inv x (Z.of_nat idx)).
      rewrite Hx. by exists file.
    + eapply IH. exact Hret.
  - destruct Hret as [? Hret]. discriminate Hret.
Qed.

Lemma prepareInputMediaForFiles_returns_inv l files :
  prepareInputMediaForFiles l = Returns files ->
  Forall media_present l /\ files = concat (imap parts_of l).
Proof.
  intros Hfiles.
  assert (Hall : Forall media_present l).
  { apply (prepareInputMediaForFiles_loop_returns_inv l 0 []).
    by exists files. }
  split; [exact Hall |].
  rewrite (prepareInputMediaForFiles_spec l Hall) in Hfiles.
  by injection Hfiles.
Qed.

Lemma prepareInputMediaForParams_returns_inv l out :
  prepareInputMediaForParams l = Returns out ->
  Forall media_present l /\ out = imap rewritten l.
Proof.
  intros Hout.
  assert (Hall : Forall media_present l).
  { apply (prepareInputMediaForParams_loop_returns_inv l 0
             (copy (replicate (length l) Nil) l)).
    by exists out. }
  split; [exact Hall |].
  rewrite (prepareInputMediaForParams_spec l Hall) in Hout.
  by injection Hout.
Qed.

Lemma prepareInputMediaParam_panic x (d : Z) (why : string) :
  prepareInputMediaParam x d = Panics why -> why = nil_dereference.
Proof.
  intros Hp.
  item_cases x; simpl in Hp; try discriminate Hp;
    destruct med as [f |]; simpl in Hp; try discriminate Hp;
    by injection Hp.
Qed.

Lemma prepareInputMediaFile_panic x (d : Z) (why : string) :
  prepareInputMediaFile x d = Panics why -> why = nil_dereference.
Proof.
  intros Hp.
  item_cases x; simpl in Hp; try discriminate Hp;
    destruct med as [f |]; simpl in Hp; try discriminate Hp;
    by injection Hp.
Qed.

Lemma prepareInputMediaForParams_loop_panics rest :
  forall idx (cur : list Interface),
    ~ Forall media_present rest ->
    prepareInputMediaForParams_loop idx rest cur = Panics nil_dereference.
Proof.
  induction rest as [| x rest IH]; intros idx cur Hno.
  - exfalso. apply Hno. constructor.
  - simpl.
    destruct (prepareInputMediaParam x (Z.of_nat idx)) as [param | why] eqn:Hx.
    + simpl. apply IH. intros Hrest. apply Hno. constructor; [| exact Hrest].
      apply (prepareInputMediaParam_returns_inv x (Z.of_nat idx)).
      rewrite Hx. by exists param.
    + simpl. by rewrite (prepareInputMediaParam_panic _ _ _ Hx).
Qed.

Lemma prepareInputMediaForFiles_loop_panics rest :
  forall idx (files : list RequestFile.t),
    ~ Forall media_present rest ->
    prepareInputMediaForFiles_loop idx rest files = Panics nil_dereference.
Proof.
  induction rest as [| x rest IH]; intros idx files Hno.
  - exfalso. apply Hno. constructor.
  - simpl.
    destruct (prepareInputMediaFile x (Z.of_nat idx)) as [file | why] eqn:Hx.
    + simpl. apply IH. intros Hrest. apply Hno. constructor; [| exact Hrest].
      apply (prepareInputMediaFile_returns_inv x (Z.of_nat idx)).
      rewrite Hx. by exists file.
    + simpl. by rewrite (prepareInputMediaFile_panic _ _ _ Hx).
Qed.

(** X1. On a group whose file references are nil or values of the six
    file reference types: when every photo, video, audio and document
    carries its primary reference, both rewriter outputs are returned;
    when one of them has a nil [Media], both functions panic with the nil
    dereference of the call [m.Media.NeedsUpload()].  Elements of any
    other type never make them panic. *)
Theorem rewriter_returns_iff_media_present l :
  (Forall media_present l ->
   returns (prepareInputMediaForParams l) /\
   returns (prepareInputMediaForFiles l)) /\
  (~ Forall media_present l ->
   prepareInputMediaForParams l = Panics nil_dereference /\
   prepareInputMediaForFiles l = Panics nil_dereference).
Proof.
  split.
  - intros Hall.
    rewrite (prepareInputMediaForParams_spec l Hall),
            (prepareInputMediaForFiles_spec l Hall).
    split; by eexists.
  - intros Hno. split.
    + by apply prepareInputMediaForParams_loop_panics.
    + by apply prepareInputMediaForFiles_loop_panics.
Qed.

Lemma rewriter_returns_iff_media_present_example :
  ~ Forall media_present [photo_item None] /\
  prepareInputMediaForParams [photo_item None] = Panics nil_dereference /\
  prepareInputMediaForFiles [photo_item None] = Panics nil_dereference.
Proof.
  assert (Hno : ~ Forall media_present [photo_item None]).
  { intros Hall. apply Forall_cons in Hall as [Hx _].
    destruct (Hx eq_refl) as [f Hf]. discriminate Hf. }
  split; [exact Hno |].
  apply (proj2 (rewriter_returns_iff_media_present [photo_item None]) Hno).
Defined.

(** The files appended for one element all wrap a reference that
    requires upload. *)
Lemma parts_of_require_upload x i :
  Forall (fun part => part_requires_upload part = true) (parts_of i x).
Proof.
  destruct (supported x) eqn:Hsup;
    [| rewrite (parts_of_unsupported x i Hsup); constructor].
  destruct (item_media x) as [f |] eqn:Hf.
  - rewrite (parts_of_item x i f Hsup Hf). apply Forall_app. split.
    + destruct (NeedsUpload f) eqn:Hup; repeat constructor. exact Hup.
    + destruct (item_thumb x) as [t |]; [| constructor].
      destruct (NeedsUpload t) eqn:Hup; repeat constructor. exact Hup.
  - unfold parts_of, prepareInputMediaFile.
    item_cases x; try discriminate Hsup; cbv in Hf; subst med; constructor.
Qed.

Lemma Forall_concat_imap {A B} (P : B -> Prop) (f : nat -> A -> list B)
    (xs : list A) :
  (forall i a, xs !! i = Some a -> Forall P (f i a)) ->
  Forall P (concat (imap f xs)).
Proof.
  revert f. induction xs as [| a xs IH]; intros f Hf; [constructor |].
  rewrite imap_cons. simpl. apply Forall_app. split.
  - by apply (Hf 0).
  - apply IH. intros i b Hb. by apply (Hf (S i)).
Qed.

(** X2. Every file part that [prepareInputMediaForFiles] returns wraps a
    reference that requires upload. *)
Theorem prepareInputMediaForFiles_parts_require_upload l files :
  prepareInputMediaForFiles l = Returns files ->
  Forall (fun part => part_requires_upload part = true) files.
Proof.
  intros Hfiles.
  apply prepareInputMediaForFiles_returns_inv in Hfiles as [_ ->].
  apply Forall_concat_imap. intros i x _. apply parts_of_require_upload.
Qed.

Lemma prepareInputMediaForFiles_parts_require_upload_example :
  prepareInputMediaForFiles example_group =
    Returns [ RequestFile.mk "file-0" (Some (FilePath "./tests/image.jpg"));
              RequestFile.mk "file-1" (Some (FilePath "./tests/thumb.jpg")) ] /\
  Forall (fun part => part_requires_upload part = true)
    [ RequestFile.mk "file-0" (Some (FilePath "./tests/image.jpg"));
      RequestFile.mk "file-1" (Some (FilePath "./tests/thumb.jpg")) ].
Proof.
  split; [reflexivity |].
  apply (prepareInputMediaForFiles_parts_require_upload example_group).
  reflexivity.
Defined.

Lemma parts_of_written x i :
  media_present x -> parts_of i x = file_parts_written i x.
Proof.
  intros Hm. unfold file_parts_written.
  destruct (supported x) eqn:Hsup.
  - destruct (Hm Hsup) as [f Hf]. by rewrite (parts_of_item x i f Hsup Hf), Hf.
  - rewrite (parts_of_unsupported x i Hsup). by item_cases x.
Qed.

(** X3. For a group whose handled items carry their primary reference,
    [prepareInputMediaForFiles] returns, item after item in order, a part
    named "file-<i>" for the media reference when it requires upload and a
    part of the same name "file-<i>" for the thumbnail when it is present
    and requires upload, and nothing else. *)
Theorem prepareInputMediaForFiles_written_parts l :
  Forall media_present l ->
  prepareInputMediaForFiles l = Returns (concat (imap file_parts_written l)).
Proof.
  intros Hall. rewrite (prepareInputMediaForFiles_spec l Hall). do 2 f_equal.
  apply imap_ext. intros i x Hi. apply parts_of_written.
  rewrite Forall_forall in Hall. apply Hall, list_elem_of_lookup. by exists i.
Qed.

Lemma prepareInputMediaForFiles_written_parts_example :
  Forall media_present [video_with_local_thumb] /\
  prepareInputMediaForFiles [video_with_local_thumb] =
    Returns (concat (imap file_parts_written [video_with_local_thumb])).
Proof.
  assert (Hall : Forall media_present [video_with_local_thumb]).
  { repeat constructor. intros _. simpl. eauto. }
  split; [exact Hall |].
  apply (prepareInputMediaForFiles_written_parts _ Hall).
Defined.

Lemma NeedsUpload_false_SendData (f : RequestFileData) :
  NeedsUpload f = false -> returns (SendData f).
Proof. destruct f; simpl; intros Hup; try discriminate Hup; by eexists. Qed.

Lemma placeholder_needs_no_upload (token : string) (f : RequestFileData) :
  NeedsUpload (placeholder token f) = false.
Proof. unfold placeholder. by destruct (NeedsUpload f) eqn:Hup. Qed.

Lemma unsupported_no_references x :
  supported x = false -> item_media x = None /\ item_thumb x = None.
Proof. by item_cases x. Qed.

Lemma rewritten_needs_no_upload x i :
  media_present x -> no_upload (rewritten i x).
Proof.
  intros Hm. destruct (supported x) eqn:Hsup.
  - destruct (Hm Hsup) as [f Hf].
    destruct (rewritten_item x i f Hsup Hf) as (Hmedia & Hthumb & _).
    split; intros g Hg.
    + rewrite Hmedia in Hg. injection Hg as <-.
      apply placeholder_needs_no_upload.
    + rewrite Hthumb in Hg. destruct (item_thumb x) as [t |]; [| discriminate Hg].
      injection Hg as <-. apply placeholder_needs_no_upload.
  - rewrite (rewritten_unsupported x i Hsup).
    destruct (unsupported_no_references x Hsup) as [Hmedia Hthumb].
    split; intros g Hg; [rewrite Hmedia in Hg | rewrite Hthumb in Hg];
      discriminate Hg.
Qed.

Lemma rewritten_media_present x i :
  media_present x -> media_present (rewritten i x).
Proof.
  intros Hm Hsup'. destruct (supported x) eqn:Hsup.
  - destruct (Hm Hsup) as [f Hf].
    destruct (rewritten_item x i f Hsup Hf) as (Hmedia & _). rewrite Hmedia.
    by eexists.
  - rewrite (rewritten_unsupported x i Hsup) in Hsup'. congruence.
Qed.

(** An element that needs no upload is left as it is. *)
Lemma rewritten_fixed y i :
  media_present y -> no_upload y -> rewritten i y = y.
Proof.
  intros Hm [Hmedia Hthumb]. destruct (supported y) eqn:Hsup;
    [| by apply rewritten_unsupported].
  destruct (Hm Hsup) as [f Hf].
  destruct (rewritten_item y i f Hsup Hf) as (Hrm & Hrt & Hro).
  apply item_determined; [exact Hro | |].
  - rewrite Hrm, Hf. unfold placeholder. by rewrite (Hmedia f Hf).
  - rewrite Hrt. destruct (item_thumb y) as [t |]; [| reflexivity].
    simpl. unfold placeholder. by rewrite (Hthumb t eq_refl).
Qed.

(** X4. In the list that [prepareInputMediaForParams] returns no media or
    thumbnail reference of a handled item requires upload: each can be
    sent inline, [SendData] on it returns. *)
Theorem prepareInputMediaForParams_output_sends_inline l out :
  prepareInputMediaForParams l = Returns out ->
  forall y f,
    y ∈ out ->
    item_media y = Some f \/ item_thumb y = Some f ->
    NeedsUpload f = false /\ returns (SendData f).
Proof.
  intros Hout y f Hy Hf.
  apply prepareInputMediaForParams_returns_inv in Hout as [Hall ->].
  apply list_elem_of_lookup in Hy as [i Hi].
  rewrite list_lookup_imap in Hi.
  destruct (l !! i) as [x |] eqn:Hx; [| discriminate Hi].
  injection Hi as <-.
  assert (Hm : media_present x).
  { rewrite Forall_forall in Hall. apply Hall, list_elem_of_lookup.
    by exists i. }
  destruct (rewritten_needs_no_upload x i Hm) as [Hmedia Hthumb].
  assert (Hup : NeedsUpload f = false) by (destruct Hf; auto).
  split; [exact Hup | by apply NeedsUpload_false_SendData].
Qed.

Lemma prepareInputMediaForParams_output_sends_inline_example :
  prepareInputMediaForParams example_group =
    Returns [ photo_item (Some (fileAttach "attach://file-0"));
              video_item (Some (FileURL "https://example.com/video.mp4"))
                         (Some (fileAttach "attach://file-1-thumb")) ] /\
  forall y f,
    y ∈ [ photo_item (Some (fileAttach "attach://file-0"));
          video_item (Some (FileURL "https://example.com/video.mp4"))
                     (Some (fileAttach "attach://file-1-thumb")) ] ->
    item_media y = Some f \/ item_thumb y = Some f ->
    NeedsUpload f = false /\ returns (SendData f).
Proof.
  split; [reflexivity |].
  apply (prepareInputMediaForParams_output_sends_inline example_group).
  reflexivity.
Defined.

Lemma imap_fixed {A} (g : nat -> A -> A) (xs : list A) :
  (forall i a, xs !! i = Some a -> g i a = a) -> imap g xs = xs.
Proof.
  revert g. induction xs as [| a xs IH]; intros g Hg; [reflexivity |].
  rewrite imap_cons, (Hg 0 a eq_refl). f_equal.
  apply IH. intros i b Hb. apply (Hg (S i) b Hb).
Qed.

(** X5. Rewriting is idempotent: on the list that
    [prepareInputMediaForParams] returns, [prepareInputMediaForParams]
    returns that same list and [prepareInputMediaForFiles] returns no file
    part. *)
Theorem prepareInputMediaForParams_idempotent l out :
  prepareInputMediaForParams l = Returns out ->
  prepareInputMediaForParams out = Returns out /\
  prepareInputMediaForFiles out = Returns [].
Proof.
  intros Hout.
  apply prepareInputMediaForParams_returns_inv in Hout as [Hall ->].
  assert (Helem : forall i y, imap rewritten l !! i = Some y ->
                    media_present y /\ no_upload y).
  { intros i y Hi. rewrite list_lookup_imap in Hi.
    destruct (l !! i) as [x |] eqn:Hx; [| discriminate Hi].
    injection Hi as <-.
    assert (Hm : media_present x).
    { rewrite Forall_forall in Hall. apply Hall, list_elem_of_lookup.
      by exists i. }
    split; [by apply rewritten_media_present
           | by apply rewritten_needs_no_upload]. }
  assert (Hall' : Forall media_present (imap rewritten l)).
  { apply Forall_lookup. intros i y Hi. by apply (Helem i y). }
  split.
  - rewrite (prepareInputMediaForParams_spec _ Hall'). f_equal.
    apply imap_fixed. intros i y Hi.
    destruct (Helem i y Hi) as [Hm Hno]. by apply rewritten_fixed.
  - rewrite (prepareInputMediaForFiles_spec _ Hall'). f_equal.
    assert (Hnil : Forall (fun part : RequestFile.t => False)
                     (concat (imap parts_of (imap rewritten l)))).
    { apply Forall_concat_imap. intros i y Hi.
      destruct (Helem i y Hi) as [Hm Hno].
      rewrite (parts_of_no_upload y i Hm Hno). constructor. }
    destruct (concat (imap parts_of (imap rewritten l))) as [| part parts];
      [reflexivity |].
    by apply Forall_cons in Hnil as [[] _].
Qed.

Lemma prepareInputMediaForParams_idempotent_example :
  prepareInputMediaForParams [video_with_local_thumb] =
    Returns [ video_item (Some (fileAttach "attach://file-0"))
                         (Some (fileAttach "attach://file-0-thumb")) ] /\
  prepareInputMediaForParams
    [ video_item (Some (fileAttach "attach://file-0"))
                 (Some (fileAttach "attach://file-0-thumb")) ] =
    Returns [ video_item (Some (fileAttach "attach://file-0"))
                         (Some (fileAttach "attach://file-0-thumb")) ] /\
  prepareInputMediaForFiles
    [ video_item (Some (fileAttach "attach://file-0"))
                 (Some (fileAttach "attach://file-0-thumb")) ] = Returns [].
Proof.
  split; [reflexivity |].
  apply (prepareInputMediaForParams_idempotent [video_with_local_thumb]).
  reflexivity.
Defined.

Lemma elem_of_concat_imap {A B} (f : nat -> A -> list B) (xs : list A)
    (i : nat) (a : A) (b : B) :
  xs !! i = Some a -> b ∈ f i a -> b ∈ concat (imap f xs).
Proof.
  revert f i. induction xs as [| a' xs IH]; intros f i Hi Hb; [discriminate Hi |].
  rewrite imap_cons. simpl. apply elem_of_app.
  destruct i as [| i]; simpl in Hi.
  - injection Hi as ->. by left.
  - right. apply (IH (f ∘ S) i Hi Hb).
Qed.

(** X6. The two outputs agree on the primary file: where the media
    reference of the item at position [i] requires upload, the file parts
    hold that reference under the name "file-<i>", and the rewritten item
    at position [i] carries the placeholder "attach://" followed by that
    name. *)
Theorem media_placeholder_names_its_file_part l i x (f : RequestFileData) :
  Forall media_present l ->
  l !! i = Some x ->
  item_media x = Some f ->
  NeedsUpload f = true ->
  exists out files y,
    prepareInputMediaForParams l = Returns out /\
    prepareInputMediaForFiles l = Returns files /\
    out !! i = Some y /\
    item_media y
      = Some (fileAttach ("attach://" +:+ "file-" +:+ Itoa (Z.of_nat i))) /\
    RequestFile.mk ("file-" +:+ Itoa (Z.of_nat i)) (Some f) ∈ files.
Proof.
  intros Hall Hi Hf Hup.
  assert (Hsup : supported x = true).
  { destruct (supported x) eqn:Hsup; [reflexivity |].
    destruct (unsupported_no_references x Hsup) as [Hnone _]. congruence. }
  exists (imap rewritten l), (concat (imap parts_of l)), (rewritten i x).
  split; [by apply prepareInputMediaForParams_spec |].
  split; [by apply prepareInputMediaForFiles_spec |].
  split; [by rewrite list_lookup_imap, Hi |].
  split.
  - destruct (rewritten_item x i f Hsup Hf) as (Hmedia & _).
    rewrite Hmedia. unfold placeholder. rewrite Hup. reflexivity.
  - apply (elem_of_concat_imap parts_of l i x _ Hi).
    rewrite (parts_of_item x i f Hsup Hf), Hup. apply elem_of_app. left.
    apply list_elem_of_here.
Qed.

Lemma media_placeholder_names_its_file_part_example :
  Forall media_present example_group /\
  example_group !! 0 = Some (photo_item (Some (FilePath "./tests/image.jpg"))) /\
  item_media (photo_item (Some (FilePath "./tests/image.jpg")))
    = Some (FilePath "./tests/image.jpg") /\
  NeedsUpload (FilePath "./tests/image.jpg") = true /\
  exists out files y,
    prepareInputMediaForParams example_group = Returns out /\
    prepareInputMediaForFiles example_group = Returns files /\
    out !! 0 = Some y /\
    item_media y
      = Some (fileAttach ("attach://" +:+ "file-" +:+ Itoa (Z.of_nat 0))) /\
    RequestFile.mk ("file-" +:+ Itoa (Z.of_nat 0))
      (Some (FilePath "./tests/image.jpg")) ∈ files.
Proof.
  assert (Hall : Forall media_present example_group).
  { repeat constructor; intros _; simpl; eauto. }
  split; [exact Hall |]. do 3 (split; [reflexivity |]).
  apply (media_placeholder_names_its_file_part example_group 0
           (photo_item (Some (FilePath "./tests/image.jpg")))
           (FilePath "./tests/image.jpg") Hall);
    reflexivity.
Defined.

(** The files of one element are all named by its index, and there are
    at most two of them. *)
Lemma prepareInputMediaFile_names x (d : Z) (files : list RequestFile.t) :
  prepareInputMediaFile x d = Returns files ->
  length files <= 2 /\
  Forall (fun part => RequestFile.Name part = "file-" +:+ Itoa d) files.
Proof.
  unfold prepareInputMediaFile. rewrite Sprintf_file.
  generalize ("file-" +:+ Itoa d). intros name_ Hfiles.
  item_cases x; simpl in Hfiles;
    try (destruct med as [f |]; simpl in Hfiles; [| discriminate Hfiles];
         destruct (NeedsUpload f); simpl in Hfiles);
    try (destruct th as [t |]; simpl in Hfiles;
         [destruct (NeedsUpload t); simpl in Hfiles |]);
    injection Hfiles as <-; simpl; split; try lia; repeat constructor.
Qed.

(** X7. File parts of different positions never share a name: two parts
    that [prepareInputMediaFile] returns under the same name were built
    for the same index. *)
Theorem file_part_names_differ_across_positions
    x y (d1 d2 : Z) (files1 files2 : list RequestFile.t)
    (part1 part2 : RequestFile.t) :
  prepareInputMediaFile x d1 = Returns files1 ->
  prepareInputMediaFile y d2 = Returns files2 ->
  part1 ∈ files1 ->
  part2 ∈ files2 ->
  RequestFile.Name part1 = RequestFile.Name part2 ->
  d1 = d2.
Proof.
  intros H1 H2 Hp1 Hp2 Hname.
  apply prepareInputMediaFile_names in H1 as [_ H1].
  apply prepareInputMediaFile_names in H2 as [_ H2].
  rewrite Forall_forall in H1, H2.
  rewrite (H1 part1 Hp1), (H2 part2 Hp2) in Hname.
  apply (inj (String.append "file-")) in Hname.
  by apply (inj pretty) in Hname.
Qed.

Lemma file_part_names_differ_across_positions_example :
  prepareInputMediaFile video_with_local_thumb 3 =
    Returns [ RequestFile.mk "file-3" (Some (FilePath "./tests/video.mp4"));
              RequestFile.mk "file-3" (Some (FilePath "./tests/image.jpg")) ] /\
  RequestFile.mk "file-3" (Some (FilePath "./tests/video.mp4"))
    ∈ [ RequestFile.mk "file-3" (Some (FilePath "./tests/video.mp4"));
        RequestFile.mk "file-3" (Some (FilePath "./tests/image.jpg")) ] /\
  RequestFile.mk "file-3" (Some (FilePath "./tests/image.jpg"))
    ∈ [ RequestFile.mk "file-3" (Some (FilePath "./tests/video.mp4"));
        RequestFile.mk "file-3" (Some (FilePath "./tests/image.jpg")) ] /\
  RequestFile.Name
    (RequestFile.mk "file-3" (Some (FilePath "./tests/video.mp4"))) =
  RequestFile.Name
    (RequestFile.mk "file-3" (Some (FilePath "./tests/image.jpg"))) /\
  3%Z = 3%Z.
Proof.
  split; [reflexivity |].
  split; [apply list_elem_of_here |].
  split; [apply list_elem_of_further, list_elem_of_here |].
  split; [reflexivity |].
  apply (file_part_names_differ_across_positions
           video_with_local_thumb video_with_local_thumb 3 3
           [ RequestFile.mk "file-3" (Some (FilePath "./tests/video.mp4"));
             RequestFile.mk "file-3" (Some (FilePath "./tests/image.jpg")) ]
           [ RequestFile.mk "file-3" (Some (FilePath "./tests/video.mp4"));
             RequestFile.mk "file-3" (Some (FilePath "./tests/image.jpg")) ]
           (RequestFile.mk "file-3" (Some (FilePath "./tests/video.mp4")))
           (RequestFile.mk "file-3" (Some (FilePath "./tests/image.jpg"))));
    first [reflexivity | apply list_elem_of_here
          | apply list_elem_of_further, list_elem_of_here].
Defined.

(** X8. The file parts of an editMessageMedia request are at most two, all
    named "file-0", and each wraps a reference that requires upload. *)
Theorem EditMessageMediaConfig_files_parts
    (config : EditMessageMediaConfig.t) (files : list RequestFile.t) :
  EditMessageMediaConfig.files config = Returns files ->
  length files <= 2 /\
  Forall (fun part =>
            RequestFile.Name part = "file-0" /\
            part_requires_upload part = true) files.
Proof.
  unfold EditMessageMediaConfig.files. intros Hfiles.
  destruct (prepareInputMediaFile_names _ _ _ Hfiles) as [Hlen Hnames].
  split; [exact Hlen |].
  assert (Hup : Forall (fun part => part_requires_upload part = true) files).
  { pose proof (parts_of_require_upload
                  (EditMessageMediaConfig.Media config) 0) as Hparts.
    unfold parts_of in Hparts. change (Z.of_nat 0) with 0%Z in Hparts.
    by rewrite Hfiles in Hparts. }
  rewrite Forall_forall in Hnames, Hup. apply Forall_forall.
  intros part Hpart. split; [exact (Hnames part Hpart) | exact (Hup part Hpart)].
Qed.

Lemma EditMessageMediaConfig_files_parts_example :
  EditMessageMediaConfig.files
    (EditMessageMediaConfig.mk
       (BaseEdit.mk 42 EmptyString 7 EmptyString None EmptyString None)
       video_with_local_thumb) =
    Returns [ RequestFile.mk "file-0" (Some (FilePath "./tests/video.mp4"));
              RequestFile.mk "file-0" (Some (FilePath "./tests/image.jpg")) ] /\
  length [ RequestFile.mk "file-0" (Some (FilePath "./tests/video.mp4"));
           RequestFile.mk "file-0" (Some (FilePath "./tests/image.jpg")) ] <= 2 /\
  Forall (fun part =>
            RequestFile.Name part = "file-0" /\
            part_requires_upload part = true)
    [ RequestFile.mk "file-0" (Some (FilePath "./tests/video.mp4"));
      RequestFile.mk "file-0" (Some (FilePath "./tests/image.jpg")) ].
Proof.
  split; [reflexivity |].
  apply (EditMessageMediaConfig_files_parts
           (EditMessageMediaConfig.mk
              (BaseEdit.mk 42 EmptyString 7 EmptyString None EmptyString None)
              video_with_local_thumb)).
  reflexivity.
Defined.

(** X9. [SendData] returns exactly on the references that do not require
    upload; on a reference that requires upload it panics. *)
Theorem SendData_returns_iff_no_upload (f : RequestFileData) :
  returns (SendData f) <-> NeedsUpload f = false.
Proof.
  split.
  - intros [data Hdata]. destruct f; simpl in *; try reflexivity;
      discriminate Hdata.
  - apply NeedsUpload_false_SendData.
Qed.


End RewriterProperties.

(** * Commands in messages *)

Section Commands.

Implicit Types (s : string) (m : CommandMessage.t) (e : MessageEntity.t).

Lemma substring_split s :
  forall a n k : nat,
    String.substring a (n + k) s =
    String.substring a n s +:+ String.substring (a + n) k s.
Proof.
  induction s as [| c s IH]; intros a n k.
  - destruct a, n, k; reflexivity.
  - destruct a as [| a]; simpl.
    + destruct n as [| n]; simpl; [reflexivity |].
      change (String c (String.substring 0 (n + k) s) =
              String c (String.substring 0 n s +:+ String.substring (S n) k (String c s))).
      simpl. f_equal. apply (IH 0 n k).
    + apply IH.
Qed.

Lemma substring_whole s : String.substring 0 (String.length s) s = s.
Proof.
  induction s as [| c s IH]; [reflexivity |]. simpl. by rewrite IH.
Qed.

Lemma length_substring s :
  forall a n : nat,
    a + n <= String.length s -> String.length (String.substring a n s) = n.
Proof.
  induction s as [| c s IH]; intros a n Hle; simpl in Hle.
  - assert (a = 0) as -> by lia. assert (n = 0) as -> by lia. reflexivity.
  - destruct a as [| a]; simpl.
    + destruct n as [| n]; [reflexivity |]. simpl. rewrite (IH 0 n); lia.
    + apply IH. lia.
Qed.

Lemma index_byte_lt (c : ascii) s (i : nat) :
  index_byte c s = Some i -> i < String.length s.
Proof.
  revert i. induction s as [| a s IH]; intros i Hi; simpl in Hi;
    [discriminate Hi |].
  destruct (decide (a = c)).
  - injection Hi as <-. simpl. lia.
  - destruct (index_byte c s) as [j |]; [| discriminate Hi].
    injection Hi as <-. specialize (IH j eq_refl). simpl. lia.
Qed.


Lemma slice_string_returns s (lo hi : Z) :
  returns (slice_string s lo hi) <-> (0 <= lo /\ lo <= hi /\ hi <= len s)%Z.
Proof.
  unfold slice_string. case_decide as Hb; split; intros H; try done.
  - by eexists.
  - destruct H as [? H]. discriminate H.
Qed.

(** X11. On a message that is not a command, that is one without entities
    or whose first entity is not a "bot_command" at offset 0, the three
    command methods return the empty string. *)
Theorem not_a_command_empty_strings m :
  CommandMessage.IsCommand m = false ->
  CommandMessage.CommandWithAt m = Returns EmptyString /\
  CommandMessage.Command m = Returns EmptyString /\
  CommandMessage.CommandArguments m = Returns EmptyString.
Proof.
  intros Hno.
  unfold CommandMessage.Command, CommandMessage.CommandWithAt,
    CommandMessage.CommandArguments.
  rewrite Hno. simpl. repeat split; reflexivity.
Qed.

Lemma not_a_command_empty_strings_plain :
  CommandMessage.IsCommand plain_message = false /\
  CommandMessage.CommandWithAt plain_message = Returns EmptyString /\
  CommandMessage.Command plain_message = Returns EmptyString /\
  CommandMessage.CommandArguments plain_message = Returns EmptyString.
Proof.
  split; [reflexivity |].
  apply (not_a_command_empty_strings plain_message). reflexivity.
Defined.

(** The command of a message, cut at the first "@", never fails once the
    command with its "@" part is there. *)
Lemma Command_of_CommandWithAt m (command : string) :
  CommandMessage.CommandWithAt m = Returns command ->
  CommandMessage.Command m =
    Returns (match index_byte "@"%char command with
             | Some i => String.substring 0 i command
             | None => command
             end).
Proof.
  intros Hcmd. unfold CommandMessage.Command. rewrite Hcmd. simpl.
  unfold strings_Index.
  destruct (index_byte "@"%char command) as [i |] eqn:Hi.
  - rewrite decide_True by lia. unfold slice_string.
    apply index_byte_lt in Hi. unfold len.
    rewrite decide_True by lia.
    by rewrite Z.sub_0_r, Nat2Z.id.
  - by rewrite decide_False by lia.
Qed.

(** X12. On a command message the methods slice the text by the length of
    the first entity: [CommandWithAt] and [Command] return exactly when
    that length is between 1 and the length of the text, and
    [CommandArguments] exactly when it is between -1 and the length of the
    text; otherwise they panic on the slice bounds. *)
Theorem command_methods_return_iff_length_in_bounds m e
    (entities : list MessageEntity.t) :
  CommandMessage.Entities m = e :: entities ->
  CommandMessage.IsCommand m = true ->
  (returns (CommandMessage.CommandWithAt m) <->
     (1 <= MessageEntity.Length e <= len (CommandMessage.Text m))%Z) /\
  (returns (CommandMessage.Command m) <->
     (1 <= MessageEntity.Length e <= len (CommandMessage.Text m))%Z) /\
  (returns (CommandMessage.CommandArguments m) <->
     (-1 <= MessageEntity.Length e <= len (CommandMessage.Text m))%Z).
Proof.
  intros Hent Hcmd.
  assert (Hwith : returns (CommandMessage.CommandWithAt m) <->
            (1 <= MessageEntity.Length e <= len (CommandMessage.Text m))%Z).
  { unfold CommandMessage.CommandWithAt. rewrite Hcmd, Hent. simpl.
    rewrite slice_string_returns. lia. }
  split; [exact Hwith |]. split.
  - rewrite <- Hwith. split.
    + intros [c Hc]. unfold CommandMessage.Command in Hc.
      destruct (CommandMessage.CommandWithAt m) as [command | why];
        [by eexists | discriminate Hc].
    + intros [command Hcommand].
      rewrite (Command_of_CommandWithAt m command Hcommand). by eexists.
  - unfold CommandMessage.CommandArguments. rewrite Hcmd, Hent. simpl.
    case_decide as Heq.
    + split; [intros _; unfold len in *; lia | intros _; by eexists].
    + rewrite slice_string_returns. lia.
Qed.

Lemma command_methods_return_iff_length_in_bounds_start :
  CommandMessage.Entities start_message = [start_entity] /\
  CommandMessage.IsCommand start_message = true /\
  (returns (CommandMessage.CommandWithAt start_message) <->
     (1 <= MessageEntity.Length start_entity
        <= len (CommandMessage.Text start_message))%Z) /\
  (returns (CommandMessage.Command start_message) <->
     (1 <= MessageEntity.Length start_entity
        <= len (CommandMessage.Text start_message))%Z) /\
  (returns (CommandMessage.CommandArguments start_message) <->
     (-1 <= MessageEntity.Length start_entity
        <= len (CommandMessage.Text start_message))%Z).
Proof.
  split; [reflexivity |]. split; [reflexivity |].
  apply (command_methods_return_iff_length_in_bounds start_message
           start_entity []); reflexivity.
Defined.



(** X14. On a command message whose first entity ends inside the text,
    the text is one byte (the slash), the command with its "@" part, one
    byte (the separator, which is dropped), and the arguments, in that
    order. *)
Theorem command_text_decomposition m e (entities : list MessageEntity.t) :
  CommandMessage.Entities m = e :: entities ->
  CommandMessage.IsCommand m = true ->
  (1 <= MessageEntity.Length e < len (CommandMessage.Text m))%Z ->
  exists slash command separator arguments,
    CommandMessage.CommandWithAt m = Returns command /\
    CommandMessage.CommandArguments m = Returns arguments /\
    String.length slash = 1 /\
    String.length separator = 1 /\
    len command = (MessageEntity.Length e - 1)%Z /\
    CommandMessage.Text m = slash +:+ command +:+ separator +:+ arguments.
Proof.
  intros Hent Hcmd Hlen. unfold len in Hlen.
  set (text := CommandMessage.Text m) in *.
  set (n := String.length text) in *.
  set (k := Z.to_nat (MessageEntity.Length e)).
  assert (Hk : MessageEntity.Length e = Z.of_nat k) by (unfold k; lia).
  assert (Hkn : 1 <= k /\ k < n) by lia.
  exists (String.substring 0 1 text), (String.substring 1 (k - 1) text),
    (String.substring k 1 text), (String.substring (k + 1) (n - (k + 1)) text).
  split; [| split; [| split; [| split; [| split]]]].
  - unfold CommandMessage.CommandWithAt. rewrite Hcmd, Hent. simpl.
    unfold slice_string, len. fold text n.
    rewrite decide_True by lia. do 2 f_equal; lia.
  - unfold CommandMessage.CommandArguments. rewrite Hcmd, Hent. simpl.
    unfold len. fold text n. rewrite decide_False by lia.
    unfold slice_string, len. fold text n.
    rewrite decide_True by lia. do 2 f_equal; lia.
  - apply length_substring. fold n. lia.
  - apply length_substring. fold n. lia.
  - unfold len. rewrite length_substring by (fold n; lia). lia.
  - rewrite <- (substring_whole text) at 1. fold n.
    replace n with (1 + ((k - 1) + (1 + (n - (k + 1))))) at 1 by lia.
    rewrite (substring_split text 0 1). f_equal. simpl.
    rewrite (substring_split text 1 (k - 1)). f_equal.
    replace (1 + (k - 1)) with k by lia.
    rewrite (substring_split text k 1). reflexivity.
Qed.

Lemma command_text_decomposition_start :
  CommandMessage.Entities start_message = [start_entity] /\
  CommandMessage.IsCommand start_message = true /\
  (1 <= MessageEntity.Length start_entity
     < len (CommandMessage.Text start_message))%Z /\
  exists slash command separator arguments,
    CommandMessage.CommandWithAt start_message = Returns command /\
    CommandMessage.CommandArguments start_message = Returns arguments /\
    String.length slash = 1 /\
    String.length separator = 1 /\
    len command = (MessageEntity.Length start_entity - 1)%Z /\
    CommandMessage.Text start_message
      = slash +:+ command +:+ separator +:+ arguments.
Proof.
  split; [reflexivity |]. split; [reflexivity |].
  assert (Hlen : (1 <= MessageEntity.Length start_entity
                    < len (CommandMessage.Text start_message))%Z)
    by (vm_compute; split; [discriminate | reflexivity]).
  split; [exact Hlen |].
  apply (command_text_decomposition start_message start_entity []
           eq_refl eq_refl Hlen).
Defined.

End Commands.

(** * More on update projections and request parameters *)

Section MoreProjections.

Local Ltac chat_field f :=
  destruct f;
  [ simpl; split;
    [ intros _ [Hb _]; unfold before_callback in Hb; simpl in Hb;
      decompose [and] Hb; discriminate
    | intros _; eexists; reflexivity ]
  | ].

(** X15. [FromChat] inspects the sub-payloads in the order message, edited
    message, channel post, edited channel post, business message, edited
    business message, deleted business messages, message reaction,
    message reaction count, callback query, my chat member, chat member,
    chat join request, chat boost, removed chat boost; the first one that
    is populated decides, and nil is returned when none of them is. *)
Theorem FromChat_priority_order (u : Update.t) :
  Update.FromChat u = default (Returns None) (first_populated chat_priority u).
Proof.
  destruct u as [id msg emsg cpost ecpost bconn bmsg ebmsg dbm react reactc
                 iq cir cq sq pcq pmp poll pa mcm cm cjr boost rboost ppm].
  unfold Update.FromChat, chat_priority; simpl.
  destruct msg; [reflexivity |]. destruct emsg; [reflexivity |].
  destruct cpost; [reflexivity |]. destruct ecpost; [reflexivity |].
  destruct bmsg; [reflexivity |]. destruct ebmsg; [reflexivity |].
  destruct dbm; [reflexivity |]. destruct react; [reflexivity |].
  destruct reactc; [reflexivity |]. destruct cq; [reflexivity |].
  destruct mcm; [reflexivity |]. destruct cm; [reflexivity |].
  destruct cjr; [reflexivity |]. destruct boost; [reflexivity |].
  destruct rboost; reflexivity.
Qed.

(** X16. [FromChat] returns for every update except those in which the
    nine sub-payloads tested before the callback query are all nil and
    the callback query is populated without a message; on those it
    panics. *)
Theorem FromChat_returns_iff (u : Update.t) :
  returns (Update.FromChat u) <->
  ~ (before_callback u /\
     exists q, Update.CallbackQuery u = Some q /\ CallbackQuery.Message q = None).
Proof.
  destruct u as [id msg emsg cpost ecpost bconn bmsg ebmsg dbm react reactc
                 iq cir cq sq pcq pmp poll pa mcm cm cjr boost rboost ppm].
  unfold Update.FromChat.
  chat_field msg. chat_field emsg. chat_field cpost. chat_field ecpost.
  chat_field bmsg. chat_field ebmsg. chat_field dbm. chat_field react.
  chat_field reactc. simpl.
  destruct cq as [q |].
  - destruct (CallbackQuery.Message q) as [m |] eqn:Hm.
    + split; [| intros _; by eexists].
      intros _ [_ (q' & Hq' & Hnone)]. simpl in Hq'. injection Hq' as <-.
      congruence.
    + split.
      * intros [chat Hchat]. discriminate Hchat.
      * intros Hno. exfalso. apply Hno. split.
        -- unfold before_callback. simpl. repeat split.
        -- by exists q.
  - split.
    + intros _ [_ (q & Hq & _)]. discriminate Hq.
    + intros _. destruct mcm, cm, cjr, boost, rboost; by eexists.
Qed.

(** X17. The four kind predicates of a chat exclude one another: at most
    one of [IsPrivate], [IsGroup], [IsSuperGroup], [IsChannel] holds. *)
Theorem Chat_kinds_exclusive (c : Chat.t) :
  length (filter (fun b : bool => b = true)
            [ ChatKind.IsPrivate c; ChatKind.IsGroup c;
              ChatKind.IsSuperGroup c; ChatKind.IsChannel c ]) <= 1.
Proof.
  unfold ChatKind.IsPrivate, ChatKind.IsGroup, ChatKind.IsSuperGroup,
    ChatKind.IsChannel.
  repeat case_bool_decide; try congruence; vm_compute; lia.
Qed.

End MoreProjections.

Section MoreParams.

Implicit Types (p : Params) (k key : string).

Lemma AddInterface_error key (value : option jsonable) p :
  (AddInterface key value p).2 = marshal_error value.
Proof. by destruct value as [[] |]. Qed.

(** Each helper writes under its own key only. *)
Lemma AddNonZero_other k key (v : Z) p :
  k <> key -> AddNonZero key v p !! k = p !! k.
Proof.
  intros Hne. unfold AddNonZero. case_decide; [reflexivity |].
  by rewrite lookup_insert_ne.
Qed.

Lemma AddNonZero64_other k key (v : Z) p :
  k <> key -> AddNonZero64 key v p !! k = p !! k.
Proof.
  intros Hne. unfold AddNonZero64. case_decide; [reflexivity |].
  by rewrite lookup_insert_ne.
Qed.

Lemma AddNonEmpty_other k key (v : string) p :
  k <> key -> AddNonEmpty key v p !! k = p !! k.
Proof.
  intros Hne. unfold AddNonEmpty. case_decide; [reflexivity |].
  by rewrite lookup_insert_ne.
Qed.

Lemma AddBool_other k key (v : bool) p :
  k <> key -> AddBool key v p !! k = p !! k.
Proof. intros Hne. unfold AddBool. by rewrite lookup_insert_ne. Qed.

Lemma AddFirstValid_other k key (args : list candidate) p :
  k <> key -> (AddFirstValid key args p).1 !! k = p !! k.
Proof.
  intros Hne. unfold AddFirstValid.
  destruct (first_valid args); simpl; [| reflexivity].
  by rewrite lookup_insert_ne.
Qed.

Lemma AddInterface_other k key (value : option jsonable) p :
  k <> key -> (AddInterface key value p).1 !! k = p !! k.
Proof.
  intros Hne. destruct value as [[text | why] |]; simpl; try reflexivity.
  by rewrite lookup_insert_ne.
Qed.

Local Ltac other_keys :=
  repeat first
    [ rewrite AddInterface_other by discriminate
    | rewrite AddNonZero64_other by discriminate
    | rewrite AddNonZero_other by discriminate
    | rewrite AddNonEmpty_other by discriminate
    | rewrite AddBool_other by discriminate
    | rewrite AddFirstValid_other by discriminate ].

Lemma BaseChat_params_pair (chat : BaseChat.t) :
  BaseChat.params chat =
    AddInterface "reply_markup" (BaseChat.ReplyMarkup chat)
      (AddNonZero64 "message_thread_id" (BaseChat.MessageThreadID chat)
         (AddNonEmpty "business_connection_id"
            (BaseChat.BusinessConnectionID chat)
            (AddBool "protect_content" (BaseChat.ProtectContent chat)
               (AddBool "allow_sending_without_reply"
                  (BaseChat.AllowSendingWithoutReply chat)
                  (AddBool "disable_notification"
                     (BaseChat.DisableNotification chat)
                     (AddNonZero "reply_to_message_id"
                        (BaseChat.ReplyToMessageID chat)
                        (AddFirstValid "chat_id"
                           [CInt (BaseChat.ChatID chat);
                            CStr (BaseChat.ChannelUsername chat)] ∅).1)))))).
Proof.
  unfold BaseChat.params.
  match goal with
  | |- (let '(q, e) := ?t in (q, e)) = _ => by destruct t
  end.
Qed.

Lemma BaseChat_params_error (chat : BaseChat.t) :
  (BaseChat.params chat).2 = marshal_error (BaseChat.ReplyMarkup chat).
Proof. rewrite BaseChat_params_pair. apply AddInterface_error. Qed.

(** X18. [BaseChat.params] does not report a missing chat target: with
    neither chat identifier nor channel username the mapping it builds has
    no "chat_id" (with the parameter helpers as the specification
    describes them), and the error it returns is the marshalling error of
    the reply markup alone, since the result of [AddFirstValid] is
    dropped. *)
Theorem BaseChat_params_without_chat_target (chat : BaseChat.t) :
  BaseChat.ChatID chat = 0%Z ->
  BaseChat.ChannelUsername chat = EmptyString ->
  (BaseChat.params chat).1 !! "chat_id" = None /\
  (BaseChat.params chat).2 = marshal_error (BaseChat.ReplyMarkup chat).
Proof.
  intros Hid Hname. split; [| apply BaseChat_params_error].
  rewrite BaseChat_params_pair, Hid, Hname. other_keys. reflexivity.
Qed.

Lemma BaseChat_params_without_chat_target_example :
  BaseChat.ChatID (chat_target 0) = 0%Z /\
  BaseChat.ChannelUsername (chat_target 0) = EmptyString /\
  (BaseChat.params (chat_target 0)).1 !! "chat_id" = None /\
  (BaseChat.params (chat_target 0)).2 = None.
Proof.
  split; [reflexivity |]. split; [reflexivity |].
  apply (BaseChat_params_without_chat_target (chat_target 0)); reflexivity.
Defined.

(** X19. When the reply markup cannot be marshalled, [MessageConfig.params]
    stops after the base parameters: it returns their mapping and the
    marshalling error, and none of the fields of the message itself (its
    text, its flags) is in the mapping.  The parameter helpers are
    as the specification describes them. *)
Theorem MessageConfig_params_stops_at_base_error
    (config : MessageConfig.t) (why : string) :
  BaseChat.ReplyMarkup (MessageConfig.BaseChat config)
    = Some (MarshalFails why) ->
  MessageConfig.params config = BaseChat.params (MessageConfig.BaseChat config) /\
  (MessageConfig.params config).2 = Some (SerializationError why) /\
  (MessageConfig.params config).1 !! "text" = None /\
  (MessageConfig.params config).1 !! "disable_web_page_preview" = None /\
  (MessageConfig.params config).1 !! "allow_paid_broadcast" = None.
Proof.
  intros Hmarkup.
  pose proof (BaseChat_params_error (MessageConfig.BaseChat config)) as Hbase.
  rewrite Hmarkup in Hbase. simpl in Hbase.
  assert (Hsame : MessageConfig.params config
                  = BaseChat.params (MessageConfig.BaseChat config)).
  { unfold MessageConfig.params.
    destruct (BaseChat.params (MessageConfig.BaseChat config)) as [p err].
    simpl in Hbase. by rewrite Hbase. }
  rewrite Hsame. split; [reflexivity |]. split; [exact Hbase |].
  rewrite BaseChat_params_pair.
  repeat split; other_keys; reflexivity.
Qed.

Lemma MessageConfig_params_stops_at_base_error_example :
  BaseChat.ReplyMarkup (MessageConfig.BaseChat message_with_bad_markup)
    = Some (MarshalFails "json: unsupported type: chan int") /\
  MessageConfig.params message_with_bad_markup
    = BaseChat.params (MessageConfig.BaseChat message_with_bad_markup) /\
  (MessageConfig.params message_with_bad_markup).2
    = Some (SerializationError "json: unsupported type: chan int") /\
  (MessageConfig.params message_with_bad_markup).1 !! "text" = None /\
  (MessageConfig.params message_with_bad_markup).1
    !! "disable_web_page_preview" = None /\
  (MessageConfig.params message_with_bad_markup).1
    !! "allow_paid_broadcast" = None.
Proof.
  split; [reflexivity |].
  apply (MessageConfig_params_stops_at_base_error message_with_bad_markup
           "json: unsupported type: chan int").
  reflexivity.
Defined.

End MoreParams.
